(** * Dressage visualizer: arena geometry, segment rendering, step visibility

    A shallow embedding of [src/app/tests.tsx] (the test definition store) and
    of the current [src/app/page.tsx] (geometry table, coordinate projector,
    SVG helpers, table grouping and the [Page] component with its state), with
    the properties of the specification stated over it.

    Modelling conventions.
    - A JavaScript [number] used as a coordinate is an IEEE-754 binary64
      value: [float] with the primitive operations of [PrimFloat].
    - A [number] used as a step number is a key of a [Set<number>] or of a
      [Map<number, _>]; it is modelled as [Z], the sets as [gset Z] and the map
      as [gmap Z _].
    - [geom], [letterCoords] and [TESTS] are plain objects indexed by
      strings.  A lookup [obj[k]] finds the own property [k] or, failing that,
      the member [k] inherited from [Object.prototype] (a function, or the
      prototype itself for [__proto__]); otherwise it is [undefined].  The
      three outcomes are the constructors of [JsLookup].  A property read
      that may be [undefined] is an [option]; [to_number] is the conversion
      applied by arithmetic ([undefined] becomes NaN).
    - A [throw new Error(msg)] is the [Throw msg] outcome of the [result]
      monad; a component that returns [null] yields [None].
    - Template strings that only serialise numbers (the [points] attribute,
      React keys) are kept as the structured values they print. *)

From Stdlib Require Import ZArith Floats.PrimFloat.
From stdpp Require Import gmap strings list sorting.

#[local] Set Warnings "-clear-no-such-hyp".

Open Scope Z_scope.

(** ** Exceptions *)

Inductive result (A : Type) : Type :=
  | Ok (a : A)
  | Throw (msg : string).
Arguments Ok {A} a.
Arguments Throw {A} msg.

#[global] Instance result_ret : MRet result := fun A a => Ok a.
#[global] Instance result_bind : MBind result := fun A B f r =>
  match r with
  | Ok a => f a
  | Throw msg => Throw msg
  end.
#[global] Instance result_fmap : FMap result := fun A B f r =>
  match r with
  | Ok a => Ok (f a)
  | Throw msg => Throw msg
  end.

Definition throws {A} (r : result A) : Prop := exists msg, r = Throw msg.

(** ** Property lookup on an object literal *)

(** The names of the members of [Object.prototype]. *)
Definition Object_prototype_members : list string := [
  "constructor"; "__defineGetter__"; "__defineSetter__"; "hasOwnProperty";
  "__lookupGetter__"; "__lookupSetter__"; "isPrototypeOf"; "propertyIsEnumerable";
  "toString"; "valueOf"; "__proto__"; "toLocaleString"
].

Inductive JsLookup (A : Type) : Type :=
  | js_own (a : A)
  | js_inherited (k : string)
  | js_undefined.
Arguments js_own {A} a.
Arguments js_inherited {A} k.
Arguments js_undefined {A}.

(** [obj[k]], given the own property [k] of [obj] if there is one. *)
Definition js_property {A} (own : option A) (k : string) : JsLookup A :=
  match own with
  | Some a => js_own a
  | None =>
      if bool_decide (k ∈ Object_prototype_members) then js_inherited k
      else js_undefined
  end.

(** [Boolean(v)] for the value of a lookup: only [undefined] is falsy. *)
Definition js_truthy {A} (v : JsLookup A) : bool :=
  match v with
  | js_undefined => false
  | _ => true
  end.

(** The [name] of an inherited member: the name of the function, [Object]
    for [constructor]; [Object.prototype] itself has none. *)
Definition inherited_name (k : string) : option string :=
  if bool_decide (k = "__proto__") then None
  else if bool_decide (k = "constructor") then Some "Object"
  else Some k.

(** [ToNumber] of a number or [undefined]. *)
Definition to_number (v : option float) : float := default nan v.

(** ** Types ([tests.tsx], [page.tsx]) *)

Inductive Direction : Set := dir_left | dir_right.

(** [Segment = LineSeg | CircleSeg], discriminated by [type]. *)
Inductive Segment : Type :=
  | LineSeg (waypoints : list string) (label : option string) (step : Z)
  | CircleSeg (at_ : string) (direction : Direction) (label : option string) (step : Z).

Definition seg_step (seg : Segment) : Z :=
  match seg with
  | LineSeg _ _ s => s
  | CircleSeg _ _ _ s => s
  end.

Record StepRow : Type := mkStepRow {
  step : Z;
  where_ : string;
  directive : string;
  ideas : option string;
}.

(** [TestDef] of [page.tsx]: [rows], [steps] and [segments] are optional.
    The fields carry a [t_] prefix; [Page] has constants of the plain names. *)
Record TestDef : Type := mkTestDef {
  t_id : string;
  t_name : string;
  t_rows : option (list StepRow);
  t_steps : option (list StepRow);
  t_segments : option (list Segment);
}.

(** An object literal keyed by test id, one entry per key; [Object.keys]
    lists the keys in the order they were written (none of them is an array
    index). *)
Definition Store : Type := list (string * TestDef).

Definition Object_keys (tests : Store) : list string := tests.*1.

Fixpoint store_get (tests : Store) (k : string) : option TestDef :=
  match tests with
  | [] => None
  | (k', t) :: rest => if decide (k' = k) then Some t else store_get rest k
  end.

(** ** Seeded content ([tests.tsx]) *)

Definition line (step : Z) (waypoints : list string) : Segment :=
  LineSeg waypoints None step.
Definition circle (step : Z) (at_ : string) (direction : Direction) : Segment :=
  CircleSeg at_ direction None step.

Definition introA_rows : list StepRow := [
  mkStepRow 1 "A" "Enter, working trot rising"
    (Some "Regularity, quality of trot; straightness, willing, calm transition");
  mkStepRow 1 "Between X & C" "Medium walk" (Some "Regularity, quality of walk");
  mkStepRow 2 "C" "Track right" (Some "Bend and balance; willing, calm transition");
  mkStepRow 2 "M" "Working trot rising" None;
  mkStepRow 3 "A" "Circle right 20 meters, working trot rising"
    (Some "Regularity; shape and size of circle; bend; balance");
  mkStepRow 4 "K - X - M" "Change rein, working trot rising"
    (Some "Regularity of trot; straightness; bend and balance in corner");
  mkStepRow 5 "C" "Circle left 20 meters, working trot rising"
    (Some "Regularity; shape and size of circle; bend; balance");
  mkStepRow 6 "Between C & H" "Medium walk"
    (Some "Willing, calm transition; regularity, quality");
  mkStepRow 7 "H - X - F" "Free walk"
    (Some "Regularity, reach and ground cover with over track of free walk allowing complete freedom to stretch the neck forward and downward");
  mkStepRow 8 "F - A" "Medium walk"
    (Some "Regularity, quality, willing, calm transition, bend and balance in turn straightness on centerline.");
  mkStepRow 8 "A" "Down centerline" None;
  mkStepRow 9 "X" "Halt and salute"
    (Some "Straightness; attentiveness; immobility (min. 3 seconds)")
].

Definition introA_segments : list Segment := [
  line 1 ["A"; "X"; "C"];
  line 2 ["C"; "M"];
  circle 3 "B" dir_right;
  line 4 ["K"; "X"; "M"];
  circle 5 "E" dir_left;
  line 6 ["E"; "C"; "H"];
  line 7 ["H"; "X"; "F"];
  line 8 ["F"; "A"; "X"]
].

Definition introA : TestDef := {|
  t_id := "introA";
  t_name := "USDF 2023 Introductory Level, Test A (20m x 40m)";
  t_rows := Some introA_rows;
  t_steps := None;
  t_segments := Some introA_segments;
|}.

Definition TESTS : Store := [("introA", introA)].

(** ** Arena constants and the coordinate projector ([page.tsx]) *)

Definition ARENA_W : float := 200%float.
Definition ARENA_H : float := 400%float.

Definition PAD : float := 24%float.
Definition LABEL_OFFSET : float := 14%float.

Definition W : float := (ARENA_W + PAD * 2)%float.
Definition H : float := (ARENA_H + PAD * 2)%float.

Definition Xpx (v : float) : float := (v + PAD)%float.
Definition Ypx (v : float) : float := (v + PAD)%float.

(** ** Geometry table *)

Definition Y_TOP_6 : float := ((6 / 40) * ARENA_H)%float.
Definition Y_MID_20 : float := ((20 / 40) * ARENA_H)%float.
Definition Y_BOT_34 : float := ((34 / 40) * ARENA_H)%float.

Record Point : Set := mkPoint { x : float; y : float }.

Definition geom_entries : list (string * Point) := [
  ("C", mkPoint (ARENA_W / 2) 0);
  ("A", mkPoint (ARENA_W / 2) ARENA_H);
  ("K", mkPoint 0 Y_BOT_34);
  ("E", mkPoint 0 Y_MID_20);
  ("H", mkPoint 0 Y_TOP_6);
  ("F", mkPoint ARENA_W Y_BOT_34);
  ("B", mkPoint ARENA_W Y_MID_20);
  ("M", mkPoint ARENA_W Y_TOP_6);
  ("G", mkPoint (ARENA_W / 2) Y_TOP_6);
  ("X", mkPoint (ARENA_W / 2) Y_MID_20);
  ("D", mkPoint (ARENA_W / 2) Y_BOT_34)
]%float.

Definition geom : gmap string Point := list_to_map geom_entries.

(** [p.x] and [p.y] for the value of a lookup in a table of points: the
    inherited members have neither. *)
Definition prop_x (v : JsLookup Point) : option float :=
  match v with
  | js_own p => Some (x p)
  | _ => None
  end.

Definition prop_y (v : JsLookup Point) : option float :=
  match v with
  | js_own p => Some (y p)
  | _ => None
  end.

(** ** SVG output *)

Inductive Anchor : Set := anchor_middle | anchor_end | anchor_start.

Inductive Svg : Type :=
  | svg_rect (rx ry width height : float)
  | svg_line (x1 y1 x2 y2 : float) (stroke : string)
  | svg_text (tx ty : float) (textAnchor : Anchor) (fill : string)
             (fontWeight : Z) (content : string)
  | svg_polyline (points : list (float * float))
  | svg_circle (cx cy r : float).

(** [toPoints]: the [points] attribute of a polyline, as the list of the
    device points it prints; throws at the first letter whose lookup is
    [undefined]. *)
Definition toPoints (ids : list string) : result (list (float * float)) :=
  mapM (fun i =>
          let p := js_property (geom !! i) i in
          if negb (js_truthy p) then Throw ("Unknown letter " +:+ i)
          else Ok (Xpx (to_number (prop_x p)), Ypx (to_number (prop_y p))))
       ids.

Definition CENTER_GUIDE_COLOR : string := "#bbb".
Definition isCenterLetter (i : string) : bool :=
  bool_decide (i = "G") || bool_decide (i = "X") || bool_decide (i = "D").

Record LabelPos : Set := mkLabelPos {
  lx : option float;
  ly : option float;
  anchor : Anchor;
}.

Definition labelPos (i : string) : result LabelPos :=
  let p := js_property (geom !! i) i in
  if negb (js_truthy p) then Throw ("Unknown letter " +:+ i)
  else if bool_decide (i = "C") then
    Ok (mkLabelPos (prop_x p) (Some (- LABEL_OFFSET)%float) anchor_middle)
  else if bool_decide (i = "A") then
    Ok (mkLabelPos (prop_x p) (Some (ARENA_H + LABEL_OFFSET)%float) anchor_middle)
  else if bool_decide (i = "K") || bool_decide (i = "E") || bool_decide (i = "H") then
    Ok (mkLabelPos (Some (- LABEL_OFFSET)%float) (prop_y p) anchor_end)
  else if bool_decide (i = "F") || bool_decide (i = "B") || bool_decide (i = "M") then
    Ok (mkLabelPos (Some (ARENA_W + LABEL_OFFSET)%float) (prop_y p) anchor_start)
  else Ok (mkLabelPos (prop_x p) (prop_y p) anchor_middle).

Definition LETTERS : list string :=
  ["C"; "M"; "B"; "F"; "H"; "E"; "K"; "G"; "X"; "D"; "A"].

(** [CircleAt]: [null] when the lookup of the letter is [undefined], else
    the circle. *)
Definition CircleAt (at_ : string) : option Svg :=
  let p := js_property (geom !! at_) at_ in
  if negb (js_truthy p) then None
  else
    let cx := Xpx (ARENA_W / 2) in
    let cy := Ypx (to_number (prop_y p)) in
    let r := (ARENA_W / 2)%float in
    Some (svg_circle cx cy r).

Definition DrawSegment (seg : Segment) : result (option Svg) :=
  match seg with
  | LineSeg waypoints _ _ =>
      points ← toPoints waypoints; Ok (Some (svg_polyline points))
  | CircleSeg at_ _ _ _ => Ok (CircleAt at_)
  end.

(** ** Table grouping *)

Record Group : Type := mkGroup { g_step : Z; g_rows : list StepRow }.

(** One iteration of the [for] loop of [groupByStep].  [groups.get(k)!.push(r)]
    appends to the array stored under [k]: an [alter] of the map. *)
Definition groupByStep_body (acc : gmap Z (list StepRow) * list Z) (r : StepRow)
  : gmap Z (list StepRow) * list Z :=
  let '(groups, ordered) := acc in
  let '(groups, ordered) :=
    if bool_decide (is_Some (groups !! step r)) then (groups, ordered)
    else (<[step r := []]> groups, ordered ++ [step r]) in
  (alter (fun rs => rs ++ [r]) (step r) groups, ordered).

Definition groupByStep (rows : list StepRow) : list Group :=
  let '(groups, ordered) := foldl groupByStep_body (∅, []) rows in
  (fun s => mkGroup s (default [] (groups !! s))) <$> ordered.

Record Checkbox : Set := mkCheckbox { checked : bool; cb_step : Z; rowSpan : nat }.

Record TableRow : Type := mkTableRow {
  key : Z * nat;
  step_cell : option Checkbox;
  where_cell : string;
  directive_cell : string;
  ideas_cell : string;
}.

(** The [<tbody>] of [StepsTable4Col]; ticking the box of [step_cell] calls
    [toggleStep (cb_step _) checked]. *)
Definition StepsTable4Col (rows : list StepRow) (isStepVisible : Z -> bool)
  : list TableRow :=
  let groups := groupByStep rows in
  flat_map (fun g =>
    imap (fun idx r =>
      mkTableRow (g_step g, idx)
        (if bool_decide (idx = 0%nat)
         then Some (mkCheckbox (isStepVisible (g_step g)) (g_step g) (length (g_rows g)))
         else None)
        (where_ r) (directive r) (default "" (ideas r)))
      (g_rows g))
    groups.

(** ** The page: derived constants *)

Definition testIds (tests : Store) : list string := Object_keys tests.
Definition defaultTestId (tests : Store) : string := default "" (testIds tests !! 0%nat).

(** [tests[k]] *)
Definition tests_property (tests : Store) (k : string) : JsLookup TestDef :=
  js_property (store_get tests k) k.

(** [tests[activeTestId] ?? tests[testIds[0]]]; an inherited member is not
    nullish, and the key made from a missing [testIds[0]] is ["undefined"]. *)
Definition activeTest (tests : Store) (activeTestId : string) : JsLookup TestDef :=
  match tests_property tests activeTestId with
  | js_undefined => tests_property tests (default "undefined" (testIds tests !! 0%nat))
  | v => v
  end.

(** The properties [Page] reads from a looked-up test; the inherited members
    have no [rows], [steps] or [segments]. *)
Definition prop_name (v : JsLookup TestDef) : option string :=
  match v with
  | js_own t => Some (t_name t)
  | js_inherited k => inherited_name k
  | js_undefined => None
  end.

Definition prop_rows (v : JsLookup TestDef) : option (list StepRow) :=
  match v with js_own t => t_rows t | _ => None end.

Definition prop_steps (v : JsLookup TestDef) : option (list StepRow) :=
  match v with js_own t => t_steps t | _ => None end.

Definition prop_segments (v : JsLookup TestDef) : option (list Segment) :=
  match v with js_own t => t_segments t | _ => None end.

(** [activeTest?.rows ?? activeTest?.steps ?? []] *)
Definition stepRows (at_ : JsLookup TestDef) : list StepRow :=
  default [] (match prop_rows at_ with
              | Some rs => Some rs
              | None => prop_steps at_
              end).

(** [activeTest?.segments ?? []] *)
Definition segments (at_ : JsLookup TestDef) : list Segment :=
  default [] (prop_segments at_).

(** The distinct steps of the segments, ascending. *)
Definition stepsInSegments (segs : list Segment) : list Z :=
  let set : gset Z := foldl (fun set s => set ∪ {[seg_step s]}) ∅ segs in
  merge_sort Z.le (elements set).

(** ** The page: visibility state *)

Definition isStepVisible (hiddenSteps : gset Z) (s : Z) : bool :=
  negb (bool_decide (s ∈ hiddenSteps)).

Definition toggleStep (s : Z) (on : bool) (prev : gset Z) : gset Z :=
  let next := prev in
  if on then next ∖ {[s]} else next ∪ {[s]}.

Definition showAnyHidden (hiddenSteps : gset Z) : bool :=
  bool_decide (0 < size hiddenSteps)%nat.

Definition toggleAllSteps (stepsInSegments : list Z) (on : bool) : gset Z :=
  if on then ∅ else list_to_set stepsInSegments.

(** The two [useState] cells, and the dependency list [[activeTestId]] the
    [useEffect] last ran with ([None] before the first run). *)
Record PageState : Type := mkPageState {
  activeTestId : string;
  hiddenSteps : gset Z;
  effectDeps : option string;
}.

Inductive Event : Type :=
  | select_change (value : string)
  | checkbox_change (s : Z) (checked : bool)
  | click_check_all
  | click_uncheck_all
  | click_print.

(** The state update requested by an event handler. *)
Definition handle (tests : Store) (ev : Event) (st : PageState) : PageState :=
  match ev with
  | select_change value =>
      mkPageState value (hiddenSteps st) (effectDeps st)
  | checkbox_change s on =>
      mkPageState (activeTestId st) (toggleStep s on (hiddenSteps st)) (effectDeps st)
  | click_check_all =>
      let segs := segments (activeTest tests (activeTestId st)) in
      mkPageState (activeTestId st) (toggleAllSteps (stepsInSegments segs) true)
        (effectDeps st)
  | click_uncheck_all =>
      let segs := segments (activeTest tests (activeTestId st)) in
      mkPageState (activeTestId st) (toggleAllSteps (stepsInSegments segs) false)
        (effectDeps st)
  | click_print => st
  end.

(** [useEffect(() => setHiddenSteps(new Set()), [activeTestId])]: runs after
    the first render and after each render in which [activeTestId] differs
    from the value of the previous run. *)
Definition run_effects (st : PageState) : PageState :=
  if bool_decide (effectDeps st = Some (activeTestId st)) then st
  else mkPageState (activeTestId st) ∅ (Some (activeTestId st)).

Definition dispatch (tests : Store) (ev : Event) (st : PageState) : PageState :=
  run_effects (handle tests ev st).

Definition mount (tests : Store) : PageState :=
  run_effects (mkPageState (defaultTestId tests) ∅ None).

(** ** The page: what is rendered *)

Record PageView : Type := mkPageView {
  subtitle : string;
  select_value : string;
  select_options : list (string * string);
  status : string;
  arena : list Svg;
  letters : list Svg;
  path : list (option Svg);
  table : list TableRow;
}.

Definition render_arena : list Svg := [
  svg_rect (Xpx 0) (Ypx 0) ARENA_W ARENA_H;
  svg_line (Xpx 0) (Ypx Y_TOP_6) (Xpx ARENA_W) (Ypx Y_TOP_6) "#e0e0e0";
  svg_line (Xpx 0) (Ypx Y_BOT_34) (Xpx ARENA_W) (Ypx Y_BOT_34) "#e0e0e0";
  svg_line (Xpx (ARENA_W / 2)) (Ypx 0) (Xpx (ARENA_W / 2)) (Ypx ARENA_H) CENTER_GUIDE_COLOR;
  svg_line (Xpx 0) (Ypx Y_MID_20) (Xpx ARENA_W) (Ypx Y_MID_20) CENTER_GUIDE_COLOR
]%float.

Definition render_letters : result (list Svg) :=
  mapM (fun i =>
          p ← labelPos i;
          Ok (svg_text (Xpx (to_number (lx p))) (Ypx (to_number (ly p))) (anchor p)
                (if isCenterLetter i then CENTER_GUIDE_COLOR else "#000")
                (if isCenterLetter i then 600 else 400) i))
       LETTERS.

(** [segments.map(seg => isStepVisible(seg.step) ? <DrawSegment seg/> : null)] *)
Definition render_path (hiddenSteps : gset Z) (segs : list Segment)
  : result (list (option Svg)) :=
  mapM (fun seg =>
          if isStepVisible hiddenSteps (seg_step seg) then DrawSegment seg
          else Ok None)
       segs.

(** The elements that reach the drawing, [null] children dropped. *)
Definition drawn (children : list (option Svg)) : list Svg := omap (fun c => c) children.

Definition Page (tests : Store) (st : PageState) : result PageView :=
  let at_ := activeTest tests (activeTestId st) in
  ls ← render_letters;
  ps ← render_path (hiddenSteps st) (segments at_);
  Ok (mkPageView
        (default "Dressage Test" (prop_name at_))
        (activeTestId st)
        ((fun i => (i, default i (prop_name (tests_property tests i)))) <$> testIds tests)
        (if showAnyHidden (hiddenSteps st) then "Some hidden" else "All visible")
        render_arena ls ps
        (StepsTable4Col (stepRows at_) (isStepVisible (hiddenSteps st)))).

(** ** Specification vocabulary

    The definitions below are not part of the program; the properties are
    stated with them. *)

(** [project] pairs the two projector functions; [unproject] subtracts the
    padding again on both axes. *)
Definition project (p : Point) : float * float := (Xpx (x p), Ypx (y p)).
Definition unproject (d : float * float) : Point :=
  mkPoint (d.1 - PAD)%float (d.2 - PAD)%float.

(** The binary64 value of an integer (exact below 2^53). *)
Fixpoint float_of_pos (p : positive) : float :=
  match p with
  | xH => 1
  | xO q => 2 * float_of_pos q
  | xI q => 2 * float_of_pos q + 1
  end%float.

Definition float_of_Z (z : Z) : float :=
  match z with
  | Z0 => 0
  | Zpos p => float_of_pos p
  | Zneg p => - float_of_pos p
  end%float.

(** The letters written by a list of [<text>] elements. *)
Definition content_of_letters (ls : list Svg) : list string :=
  omap (fun e => match e with svg_text _ _ _ _ _ c => Some c | _ => None end) ls.

(** A state in which no effect is pending: the state after mounting and
    after every event. *)
Definition settled (st : PageState) : Prop :=
  effectDeps st = Some (activeTestId st).

(** A sequence of [toggleStep] calls, oldest first. *)
Definition toggles (calls : list (Z * bool)) (hidden : gset Z) : gset Z :=
  foldl (fun h c => toggleStep c.1 c.2 h) hidden calls.

(** The property claimed of a circle segment anchored at [at_]: its center is
    the device position of the marker. *)
Definition circle_centered_on_marker (at_ : string) : Prop :=
  forall p, geom !! at_ = Some p ->
    exists r, CircleAt at_ = Some (svg_circle (project p).1 (project p).2 r).

(** The same view with another value in the selection control. *)
Definition with_select_value (value : string) (v : PageView) : PageView :=
  mkPageView (subtitle v) value (select_options v) (status v)
    (arena v) (letters v) (path v) (table v).

(** The flag of the most recent call for step [s], if there is one. *)
Definition last_call (s : Z) (calls : list (Z * bool)) : option bool :=
  snd <$> last (filter (fun c => c.1 = s) calls).

(** The distinct values of a list in order of first occurrence. *)
Fixpoint firstSeen (l : list Z) : list Z :=
  match l with
  | [] => []
  | a :: l' => a :: filter (fun b => b <> a) (firstSeen l')
  end.

(** Device points inside the arena rectangle, and inside the [viewBox]
    [0 0 W H] of the drawing. *)
Definition in_arena (d : float * float) : bool :=
  ((Xpx 0 <=? d.1) && (d.1 <=? Xpx ARENA_W) &&
   (Ypx 0 <=? d.2) && (d.2 <=? Ypx ARENA_H))%float.

Definition in_viewBox (d : float * float) : bool :=
  ((0 <=? d.1) && (d.1 <=? W) && (0 <=? d.2) && (d.2 <=? H))%float.

(** The events the rendered page offers in state [st]: the selection control
    lists the ids of the store, and there is one checkbox per step of the
    rows of the active test. *)
Definition offered (tests : Store) (st : PageState) (ev : Event) : Prop :=
  match ev with
  | select_change value => value ∈ testIds tests
  | checkbox_change s _ => s ∈ step <$> stepRows (activeTest tests (activeTestId st))
  | _ => True
  end.

(** The states reached from the mounted page through offered events. *)
Inductive reachable (tests : Store) : PageState -> Prop :=
  | reachable_mount : reachable tests (mount tests)
  | reachable_dispatch st ev :
      reachable tests st -> offered tests st ev -> reachable tests (dispatch tests ev st).

(** Equal values are adjacent: a value that occurs again later occurs right
    next. *)
Fixpoint contiguous (l : list Z) : Prop :=
  match l with
  | [] => True
  | a :: l' => (a ∈ l' -> head l' = Some a) /\ contiguous l'
  end.

(** ** The first page ([src/app/page.tsx]): horizontal arena

    The first version of the page draws the arena lying down, without padding,
    keeps its own segment list (segments carry a label and no step) and one
    visibility flag per segment. *)

Module Horizontal.

Inductive Segment : Type :=
  | LineSeg (waypoints : list string) (label : option string)
  | CircleSeg (at_ : string) (direction : Direction) (label : option string).

Definition W : float := 400%float.
Definition H : float := 200%float.

Definition letterCoords_entries : list (string * Point) := [
  ("A", mkPoint 0 (H / 2));
  ("C", mkPoint W (H / 2));
  ("K", mkPoint ((W * 1) / 6) (H - 2));
  ("E", mkPoint ((W * 3) / 6) (H - 2));
  ("H", mkPoint ((W * 5) / 6) (H - 2));
  ("F", mkPoint ((W * 1) / 6) 2);
  ("B", mkPoint ((W * 3) / 6) 2);
  ("M", mkPoint ((W * 5) / 6) 2);
  ("D", mkPoint ((W * 1) / 3) (H / 2));
  ("X", mkPoint ((W * 1) / 2) (H / 2));
  ("G", mkPoint ((W * 2) / 3) (H / 2))
]%float.

Definition letterCoords : gmap string Point := list_to_map letterCoords_entries.

(** The [points] attribute prints [p.x] and [p.y] as they are, so a point
    may read [undefined,undefined]. *)
Definition pts (letters : list string) : result (list (option float * option float)) :=
  mapM (fun i =>
          let p := js_property (letterCoords !! i) i in
          if negb (js_truthy p) then Throw ("Unknown letter " +:+ i)
          else Ok (prop_x p, prop_y p))
       letters.

Definition introA_20x40 : list Segment := [
  LineSeg ["A"; "X"; "C"] (Some "Enter (trot), then walk");
  LineSeg ["C"; "M"] (Some "Track right, trot");
  CircleSeg "B" dir_right (Some "20 m circle right");
  LineSeg ["K"; "X"; "M"] (Some "Change rein");
  CircleSeg "E" dir_left (Some "20 m circle left");
  LineSeg ["E"; "C"; "H"] (Some "Walk");
  LineSeg ["H"; "X"; "F"] (Some "Free walk on diagonal");
  LineSeg ["F"; "A"; "X"] (Some "Down centerline (walk)")
].

(** An attribute whose value is [undefined] is [None]. *)
Inductive Elem : Type :=
  | el_polyline (points : list (option float * option float))
  | el_circle (cx cy : option float) (r : float)
  | el_text (tx ty : option float) (content : string).

Definition CircleAt (at_ : string) : option Elem :=
  let c := js_property (letterCoords !! at_) at_ in
  if negb (js_truthy c) then None
  else let r := (H / 4)%float in Some (el_circle (prop_x c) (prop_y c) r).

Definition SegmentLabel (label near : string) : option Elem :=
  let p := js_property (letterCoords !! near) near in
  if negb (js_truthy p) then None
  else Some (el_text (prop_x p) (prop_y p) label).

(** [Boolean(s)] for a string: false for the empty string only. *)
Definition truthy (s : string) : bool := negb (bool_decide (s = "")).

(** [{seg.label ? <SegmentLabel label={seg.label} near={near} /> : null}] *)
Definition label_child (label : option string) (near : string) : option Elem :=
  match label with
  | Some l => if truthy l then SegmentLabel l near else None
  | None => None
  end.

(** The children of the [<g>] drawn for a segment. *)
Definition DrawSegment (seg : Segment) : result (list (option Elem)) :=
  match seg with
  | LineSeg waypoints label =>
      let way := filter (fun s => truthy s = true) waypoints in
      let last_id := default "X" (last way) in
      points ← pts way;
      Ok [Some (el_polyline points); label_child label last_id]
  | CircleSeg at_ _ label => Ok [CircleAt at_; label_child label at_]
  end.

(** The state [visible : boolean[]] and its handlers.  [set_visible] is
    [v[i] = checked] on a copy, for an index of the array: the checkboxes are
    made from the segment list, one per index (beyond the end JavaScript
    would extend the array). *)
Definition initial_visible : list bool := (fun _ => true) <$> introA_20x40.

Definition anyHidden (visible : list bool) : bool := existsb negb visible.

Definition toggleAll (on : bool) : list bool := (fun _ => on) <$> introA_20x40.

Definition set_visible (i : nat) (checked : bool) (visible : list bool) : list bool :=
  let v := visible in <[i := checked]> v.

Inductive Event : Type :=
  | click_show_all
  | click_hide_all
  | checkbox_change (i : nat) (checked : bool)
  | click_print.

Definition handle (ev : Event) (visible : list bool) : list bool :=
  match ev with
  | click_show_all => toggleAll true
  | click_hide_all => toggleAll false
  | checkbox_change i checked => set_visible i checked visible
  | click_print => visible
  end.

(** [introA_20x40.map((seg, i) => visible[i] ? <DrawSegment seg /> : null)];
    a missing [visible[i]] is [undefined], which is falsy. *)
Definition render_path_of (segs : list Segment) (visible : list bool)
  : result (list (option (list (option Elem)))) :=
  mapM (fun si =>
          if default false (visible !! si.1)
          then g ← DrawSegment si.2; Ok (Some g)
          else Ok None)
       (imap pair segs).

Definition render_path (visible : list bool) := render_path_of introA_20x40 visible.

(** The checkboxes of the side list, [checked={visible[i]}]. *)
Definition render_checkboxes (visible : list bool) : list (option bool) :=
  imap (fun i _ => visible !! i) introA_20x40.

End Horizontal.

(** The value of [letterCoords[i]]. *)
Definition letter_at (i : string) : JsLookup Point :=
  js_property (Horizontal.letterCoords !! i) i.

(** The events the first page offers: one checkbox per segment. *)
Definition horizontal_offered (ev : Horizontal.Event) : Prop :=
  match ev with
  | Horizontal.checkbox_change i _ => (i < length Horizontal.introA_20x40)%nat
  | _ => True
  end.

Definition inside_horizontal_viewBox (cx cy r : float) : bool :=
  ((0 <=? cx - r) && (cx + r <=? Horizontal.W) &&
   (0 <=? cy - r) && (cy + r <=? Horizontal.H))%float.

(** The visibility flags of the first page after a list of events. *)
Definition horizontal_run (evs : list Horizontal.Event) : list bool :=
  foldl (fun v ev => Horizontal.handle ev v) Horizontal.initial_visible evs.

(** The value of [geom[i]], and the device point printed for it. *)
Definition geom_at (i : string) : JsLookup Point := js_property (geom !! i) i.

Definition device_point (v : JsLookup Point) : float * float :=
  (Xpx (to_number (prop_x v)), Ypx (to_number (prop_y v))).

(** * Properties *)

(** ** Geometry table and projector *)

Lemma geom_lookup_entries (i : string) (p : Point) :
  geom !! i = Some p -> (i, p) ∈ geom_entries.
Proof. unfold geom. apply elem_of_list_to_map_2. Qed.

(** Case analysis on the eleven letters of the table. *)
Ltac geom_cases H :=
  apply geom_lookup_entries in H; unfold geom_entries in H;
  repeat (apply elem_of_cons in H as [H | H]; [injection H as -> -> |]);
  [.. | by apply elem_of_nil in H].

Lemma Y_constants : Y_TOP_6 = 60%float /\ Y_MID_20 = 200%float /\ Y_BOT_34 = 340%float.
Proof. repeat split; reflexivity. Qed.

(** Shifting by [PAD] and back is exact on every integer coordinate of the
    drawing surface, which extends [PAD] beyond the arena on each side. *)
Lemma shift_roundtrip_range :
  Forall (fun z => (float_of_Z z + PAD - PAD)%float = float_of_Z z) (seqZ (-24) 449).
Proof.
  vm_compute seqZ.
  repeat (apply Forall_cons_2; [reflexivity |]). apply Forall_nil_2.
Qed.

Lemma shift_roundtrip (z : Z) :
  -24 <= z <= 424 -> (float_of_Z z + PAD - PAD)%float = float_of_Z z.
Proof.
  intros Hz. pose proof shift_roundtrip_range as Hall.
  rewrite Forall_forall in Hall. apply Hall.
  apply elem_of_seqZ. lia.
Qed.

Lemma geom_roundtrip (i : string) (p : Point) :
  geom !! i = Some p -> unproject (project p) = p.
Proof. intros Hp. geom_cases Hp; reflexivity. Qed.

(** C9 (as stated): the round trip is not exact on every normalized point.
    For the point (0.1, 0.1) inside the arena, [0.1 + 24] rounds to the nearest
    binary64 value and subtracting 24 gives 0.10000000000000142. *)
Lemma project_roundtrip_inexact :
  let p := mkPoint 0x1.999999999999ap-4 0x1.999999999999ap-4 in
  unproject (project p) = mkPoint 0x1.9999999999ap-4 0x1.9999999999ap-4 /\
  unproject (project p) <> p.
Proof.
  split; [reflexivity |].
  intros Heq.
  apply (f_equal (fun q => PrimFloat.eqb (x q) 0x1.999999999999ap-4)) in Heq.
  vm_compute in Heq. discriminate.
Qed.

(** C9 (amended): the projector adds the constant [PAD] = 24 to each axis and
    is a total function; projecting and then subtracting [PAD] on both axes
    returns the original point exactly for every point with integer
    coordinates between -24 and 424 (the extent of the drawing surface), and
    for every marker position of the geometry table. *)
Theorem project_roundtrip_exact :
  (forall p : Point, project p = ((x p + 24)%float, (y p + 24)%float)) /\
  (forall zx zy : Z,
     -24 <= zx <= 424 -> -24 <= zy <= 424 ->
     unproject (project (mkPoint (float_of_Z zx) (float_of_Z zy)))
     = mkPoint (float_of_Z zx) (float_of_Z zy)) /\
  (forall (i : string) (p : Point),
     geom !! i = Some p -> unproject (project p) = p).
Proof.
  split; [reflexivity |]. split.
  - intros zx zy Hx Hy. unfold unproject, project, Xpx, Ypx. cbn [fst snd x y].
    by rewrite !shift_roundtrip.
  - apply geom_roundtrip.
Qed.

Lemma project_roundtrip_exact_witness :
  unproject (project (mkPoint (float_of_Z 200) (float_of_Z 340)))
  = mkPoint (float_of_Z 200) (float_of_Z 340) /\
  unproject (project (mkPoint 200 200)) = mkPoint 200 200.
Proof.
  destruct project_roundtrip_exact as (_ & Hint & Hgeom). split.
  - apply Hint; lia.
  - apply (Hgeom "B"). reflexivity.
Defined.

(** ** Circles *)

(** C1 (as stated): the circle anchored at B, the third segment of the seeded
    test, is drawn around (124, 224) while B is projected to (224, 224). *)
Lemma circle_at_B_not_centered_on_B :
  geom !! "B" = Some (mkPoint 200 200) /\
  project (mkPoint 200 200) = (224%float, 224%float) /\
  DrawSegment (circle 3 "B" dir_right) = Ok (Some (svg_circle 124 224 100)) /\
  ~ circle_centered_on_marker "B".
Proof.
  repeat split; try reflexivity.
  intros Hc. destruct (Hc (mkPoint 200 200)) as [r Hr]; [reflexivity |].
  apply (f_equal (fun o => match o with
                           | Some (svg_circle cx _ _) => PrimFloat.eqb cx 124
                           | _ => false
                           end)) in Hr.
  vm_compute in Hr. discriminate.
Qed.

(** C1 (amended): for every circle segment whose reference marker exists in
    the geometry table, a circle is drawn whose radius is half the arena's
    short-axis width ([ARENA_W / 2] = 100) and whose center lies on the long
    centerline at the marker's height: [(Xpx (ARENA_W / 2), Ypx p.y)].  The
    center is the projected marker position when the marker itself lies on
    the centerline.  The geometry is the same for both directions. *)
Theorem circle_segment_geometry
    (s : Z) (at_ : string) (d : Direction) (lbl : option string) (p : Point) :
  geom !! at_ = Some p ->
  DrawSegment (CircleSeg at_ d lbl s)
    = Ok (Some (svg_circle (Xpx (ARENA_W / 2)) (Ypx (y p)) (ARENA_W / 2))) /\
  (ARENA_W / 2)%float = 100%float /\ (ARENA_W <? ARENA_H)%float = true /\
  (x p = (ARENA_W / 2)%float ->
   DrawSegment (CircleSeg at_ d lbl s)
     = Ok (Some (svg_circle (project p).1 (project p).2 (ARENA_W / 2)))) /\
  DrawSegment (CircleSeg at_ dir_left lbl s) = DrawSegment (CircleSeg at_ dir_right lbl s).
Proof.
  intros Hp. cbn [DrawSegment]. unfold CircleAt. rewrite Hp. cbn.
  repeat split; try reflexivity.
  intros Hx. unfold project. cbn [fst snd]. by rewrite Hx.
Qed.

Lemma circle_segment_geometry_witness :
  DrawSegment (CircleSeg "E" dir_left None 5)
    = Ok (Some (svg_circle (Xpx (ARENA_W / 2)) (Ypx (y (mkPoint 0 200))) (ARENA_W / 2))).
Proof.
  apply (circle_segment_geometry 5 "E" dir_left None (mkPoint 0 200)).
  reflexivity.
Defined.

(** ** Lookups in the geometry table *)

Lemma js_property_undefined_iff {A} (own : option A) (k : string) :
  js_property own k = js_undefined <-> own = None /\ k ∉ Object_prototype_members.
Proof.
  unfold js_property. destruct own as [a |].
  - split; [done | by intros [? _]].
  - case_bool_decide as Hk.
    + split; [done | by intros [_ ?]].
    + by split.
Qed.

Lemma js_truthy_false {A} (v : JsLookup A) : js_truthy v = false <-> v = js_undefined.
Proof. by destruct v. Qed.

Lemma geom_at_own (i : string) (p : Point) : geom !! i = Some p -> geom_at i = js_own p.
Proof. unfold geom_at. by intros ->. Qed.

Lemma geom_at_undefined_iff (i : string) :
  geom_at i = js_undefined <-> geom !! i = None /\ i ∉ Object_prototype_members.
Proof. apply js_property_undefined_iff. Qed.

Lemma CircleAt_own (at_ : string) (p : Point) :
  geom !! at_ = Some p ->
  CircleAt at_ = Some (svg_circle (Xpx (ARENA_W / 2)) (Ypx (y p)) (ARENA_W / 2)).
Proof. intros Hp. unfold CircleAt. by rewrite Hp. Qed.

Lemma CircleAt_undefined (at_ : string) : geom_at at_ = js_undefined -> CircleAt at_ = None.
Proof. unfold geom_at, CircleAt. by intros ->. Qed.

(** ** Exceptions raised while rendering *)

Lemma mapM_result_app {A B} (f : A -> result B) (l1 l2 : list A) :
  mapM f (l1 ++ l2) = xs ← mapM f l1; ys ← mapM f l2; Ok (xs ++ ys).
Proof.
  induction l1 as [| a l1 IH]; cbn.
  - by destruct (mapM f l2).
  - destruct (f a) as [b | msg]; cbn; [| done].
    rewrite IH. destruct (mapM f l1) as [xs | msg]; cbn; [| done].
    by destruct (mapM f l2).
Qed.

Lemma toPoints_cons (a : string) (ids : list string) :
  toPoints (a :: ids)
  = if negb (js_truthy (geom_at a)) then Throw ("Unknown letter " +:+ a)
    else pts ← toPoints ids; Ok (device_point (geom_at a) :: pts).
Proof.
  unfold toPoints, geom_at, device_point. cbn [mapM].
  by destruct (negb (js_truthy (js_property (geom !! a) a))).
Qed.

Lemma toPoints_cons_undefined (a : string) (ids : list string) :
  geom_at a = js_undefined -> toPoints (a :: ids) = Throw ("Unknown letter " +:+ a).
Proof. intros Ha. by rewrite toPoints_cons, Ha. Qed.

Lemma toPoints_cons_defined (a : string) (ids : list string) :
  js_truthy (geom_at a) = true ->
  toPoints (a :: ids) = pts ← toPoints ids; Ok (device_point (geom_at a) :: pts).
Proof. intros Ha. by rewrite toPoints_cons, Ha. Qed.

Lemma render_path_cons (hidden : gset Z) (a : Segment) (segs : list Segment) :
  render_path hidden (a :: segs)
  = c ← (if isStepVisible hidden (seg_step a) then DrawSegment a else Ok None);
    cs ← render_path hidden segs; Ok (c :: cs).
Proof. reflexivity. Qed.

Lemma toPoints_unknown (ids : list string) (i : string) :
  i ∈ ids -> geom_at i = js_undefined ->
  exists j, j ∈ ids /\ geom_at j = js_undefined /\
    toPoints ids = Throw ("Unknown letter " +:+ j).
Proof.
  intros Hin Hi. induction ids as [| a ids IH]; [by apply elem_of_nil in Hin |].
  destruct (js_truthy (geom_at a)) eqn:Ha.
  - rewrite toPoints_cons_defined by done.
    apply elem_of_cons in Hin as [-> | Hin]; [by rewrite Hi in Ha |].
    destruct (IH Hin) as (j & Hj & Hgj & ->).
    exists j. split; [by apply elem_of_cons; right | done].
  - apply js_truthy_false in Ha.
    exists a. split; [apply elem_of_cons; by left |]. split; [done |].
    by apply toPoints_cons_undefined.
Qed.

Lemma toPoints_known (ids : list string) :
  Forall (fun i => is_Some (geom !! i)) ids ->
  exists pts, toPoints ids = Ok pts /\ length pts = length ids.
Proof.
  induction 1 as [| a ids [p Hp] _ (pts & Hpts & Hlen)]; [by exists [] |].
  exists ((Xpx (x p), Ypx (y p)) :: pts).
  rewrite toPoints_cons, (geom_at_own _ _ Hp), Hpts. cbn. by rewrite Hlen.
Qed.

(** Every exception of [DrawSegment] reports a waypoint of a line whose
    lookup is [undefined]. *)
Lemma DrawSegment_throw_inv (seg : Segment) (msg : string) :
  DrawSegment seg = Throw msg ->
  exists j, geom_at j = js_undefined /\ msg = "Unknown letter " +:+ j.
Proof.
  destruct seg as [wps lbl s | at_ d lbl s]; cbn [DrawSegment]; [| done].
  destruct (toPoints wps) as [pts | m] eqn:Hpts; [done |].
  intros [= <-]. clear lbl s. revert m Hpts.
  induction wps as [| a wps IH]; intros m; [done |].
  destruct (js_truthy (geom_at a)) eqn:Ha.
  - rewrite toPoints_cons_defined by done.
    destruct (toPoints wps) as [pts | m'] eqn:Hrest; [done |].
    intros [= <-]. by apply IH.
  - apply js_truthy_false in Ha.
    rewrite toPoints_cons_undefined by done. intros [= <-]. by exists a.
Qed.

Lemma render_path_throws (hidden : gset Z) (segs : list Segment) (seg : Segment) :
  seg ∈ segs -> isStepVisible hidden (seg_step seg) = true ->
  throws (DrawSegment seg) ->
  exists j, geom_at j = js_undefined /\
    render_path hidden segs = Throw ("Unknown letter " +:+ j).
Proof.
  intros Hin Hvis Hthrow. induction segs as [| a segs IH]; [by apply elem_of_nil in Hin |].
  rewrite render_path_cons.
  destruct (isStepVisible hidden (seg_step a)) eqn:Hva.
  - destruct (DrawSegment a) as [c | m] eqn:Hda.
    + apply elem_of_cons in Hin as [-> | Hin].
      { destruct Hthrow as [m Hm]. congruence. }
      destruct (IH Hin) as (j & Hj & ->). by exists j.
    + destruct (DrawSegment_throw_inv _ _ Hda) as (j & Hj & ->). by exists j.
  - apply elem_of_cons in Hin as [-> | Hin]; [congruence |].
    destruct (IH Hin) as (j & Hj & ->). by exists j.
Qed.

Lemma render_letters_ok : exists ls, render_letters = Ok ls /\ length ls = 11%nat.
Proof. by eexists. Qed.

Lemma render_path_skip_null (hidden : gset Z) (l1 l2 : list Segment) (seg : Segment) :
  DrawSegment seg = Ok None ->
  drawn <$> render_path hidden (l1 ++ seg :: l2) = drawn <$> render_path hidden (l1 ++ l2).
Proof.
  intros Hnull. unfold render_path. rewrite !mapM_result_app. cbn.
  destruct (mapM _ l1) as [xs | m]; cbn; [| done].
  assert ((if isStepVisible hidden (seg_step seg) then DrawSegment seg else Ok None)
          = Ok None) as -> by (by destruct (isStepVisible _ _)).
  cbn. destruct (mapM _ l2) as [ys | m]; cbn; [| done].
  unfold drawn. by rewrite !omap_app.
Qed.

(** C4 (as stated): a circle segment anchored at the unknown letter Z raises
    no error; the page renders and the segment is missing from the drawing. *)
Lemma unknown_circle_marker_dropped_silently :
  let t := mkTestDef "t" "T" None None (Some [line 1 ["A"; "C"]; circle 2 "Z" dir_left]) in
  geom !! "Z" = None /\ geom_at "Z" = js_undefined /\
  ~ throws (Page [("t", t)] (mount [("t", t)])) /\
  (fun v => drawn (path v)) <$> Page [("t", t)] (mount [("t", t)])
    = Ok [svg_polyline [(124%float, 424%float); (124%float, 24%float)]].
Proof.
  split; [reflexivity |]. split; [reflexivity |]. split; [| reflexivity].
  intros [msg Hmsg]. vm_compute in Hmsg. discriminate.
Qed.

(** C4 (amended): the lookup [geom[id]] is [undefined] exactly when [id] is
    neither a marker of the geometry table nor the name of a member inherited
    from [Object.prototype].  A visible line segment with a waypoint whose
    lookup is [undefined] makes rendering fail with the error
    "Unknown letter <id>", so the page is not rendered; a circle segment
    whose reference marker has an [undefined] lookup raises no error:
    [CircleAt] returns [null] and the drawing is the one obtained without
    that segment. *)
Theorem unknown_marker_outcome :
  (forall i, geom_at i = js_undefined <-> geom !! i = None /\ i ∉ Object_prototype_members) /\
  (forall tests st wps lbl s i,
     LineSeg wps lbl s ∈ segments (activeTest tests (activeTestId st)) ->
     isStepVisible (hiddenSteps st) s = true ->
     i ∈ wps -> geom_at i = js_undefined ->
     exists j, geom_at j = js_undefined /\
       Page tests st = Throw ("Unknown letter " +:+ j)) /\
  (forall wps lbl s i,
     i ∈ wps -> geom_at i = js_undefined ->
     exists j, j ∈ wps /\ geom_at j = js_undefined /\
       DrawSegment (LineSeg wps lbl s) = Throw ("Unknown letter " +:+ j)) /\
  (forall at_ d lbl s,
     geom_at at_ = js_undefined -> DrawSegment (CircleSeg at_ d lbl s) = Ok None) /\
  (forall hidden l1 l2 at_ d lbl s,
     geom_at at_ = js_undefined ->
     drawn <$> render_path hidden (l1 ++ CircleSeg at_ d lbl s :: l2)
     = drawn <$> render_path hidden (l1 ++ l2)).
Proof.
  assert (Hline : forall wps lbl s i,
     i ∈ wps -> geom_at i = js_undefined ->
     exists j, j ∈ wps /\ geom_at j = js_undefined /\
       DrawSegment (LineSeg wps lbl s) = Throw ("Unknown letter " +:+ j)).
  { intros wps lbl s i Hin Hi.
    destruct (toPoints_unknown wps i Hin Hi) as (j & Hj & Hgj & Hthrow).
    exists j. cbn. by rewrite Hthrow. }
  assert (Hcircle : forall at_ d lbl s,
     geom_at at_ = js_undefined -> DrawSegment (CircleSeg at_ d lbl s) = Ok None).
  { intros at_ d lbl s Hat. cbn [DrawSegment]. by rewrite CircleAt_undefined. }
  split; [exact geom_at_undefined_iff |].
  split; [| split; [exact Hline | split; [exact Hcircle |]]].
  - intros tests st wps lbl s i Hseg Hvis Hin Hi.
    destruct (Hline wps lbl s i Hin Hi) as (j0 & _ & _ & Hthrow).
    destruct (render_path_throws (hiddenSteps st) _ _ Hseg Hvis) as (j & Hj & Hpath).
    { by exists ("Unknown letter " +:+ j0). }
    exists j. split; [done |].
    unfold Page. destruct render_letters_ok as (ls & -> & _). cbn.
    by rewrite Hpath.
  - intros hidden l1 l2 at_ d lbl s Hat.
    apply render_path_skip_null. by apply Hcircle.
Qed.

Lemma unknown_marker_outcome_witness :
  (exists j, geom_at j = js_undefined /\
     Page [("t", mkTestDef "t" "T" None None (Some [line 1 ["A"; "Z"]]))]
          (mkPageState "t" ∅ (Some "t"))
     = Throw ("Unknown letter " +:+ j)) /\
  DrawSegment (CircleSeg "Z" dir_left None 2) = Ok None.
Proof.
  destruct unknown_marker_outcome as (_ & Hpage & _ & Hcircle & _). split.
  - apply (Hpage _ _ ["A"; "Z"] None 1 "Z").
    + vm_compute. apply list_elem_of_singleton. reflexivity.
    + reflexivity.
    + apply elem_of_cons. right. apply list_elem_of_singleton. reflexivity.
    + reflexivity.
  - apply Hcircle. reflexivity.
Defined.

(** For the name of a member inherited from [Object.prototype] the lookup
    is truthy and has no coordinates: [toPoints] prints NaN,NaN, [CircleAt]
    draws a circle with [cy] = NaN and [labelPos] returns a position without
    coordinates; none of them throws. *)
Remark inherited_names_pass_the_guards :
  Forall (fun i =>
            geom_at i = js_inherited i /\
            toPoints [i] = Ok [(nan, nan)] /\
            CircleAt i = Some (svg_circle 124 nan 100) /\
            labelPos i = Ok (mkLabelPos None None anchor_middle))
    Object_prototype_members.
Proof.
  unfold Object_prototype_members.
  repeat (apply Forall_cons_2; [by repeat split |]). apply Forall_nil_2.
Qed.

(** ** Unknown test ids *)

Lemma store_get_head (k : string) (t : TestDef) (rest : Store) :
  store_get ((k, t) :: rest) k = Some t.
Proof. cbn. by rewrite decide_True. Qed.

Lemma tests_property_own (tests : Store) (k : string) (t : TestDef) :
  store_get tests k = Some t -> tests_property tests k = js_own t.
Proof. unfold tests_property. by intros ->. Qed.

Lemma activeTest_own (tests : Store) (k : string) (t : TestDef) :
  store_get tests k = Some t -> activeTest tests k = js_own t.
Proof. intros Hk. unfold activeTest. by rewrite (tests_property_own _ _ _ Hk). Qed.

(** C2 (as stated): the id "freestyle" is not in the seeded store, yet
    rendering the page with it raises no error and shows test introA. *)
Lemma unknown_test_id_renders_first_test :
  let st := dispatch TESTS (select_change "freestyle") (mount TESTS) in
  store_get TESTS "freestyle" = None /\
  tests_property TESTS "freestyle" = js_undefined /\
  activeTest TESTS "freestyle" = js_own introA /\
  ~ throws (Page TESTS st) /\
  Page TESTS st = with_select_value "freestyle" <$> Page TESTS (mount TESTS).
Proof.
  repeat split; try reflexivity.
  intros [msg Hmsg]. vm_compute in Hmsg. discriminate.
Qed.

(** C2 (amended): the lookup [tests[id]] is [undefined] exactly when [id] is
    neither a key of the store nor the name of a member inherited from
    [Object.prototype].  For such an id no NotFound error is raised; the page
    falls back to the first test of the store, [tests[testIds[0]]], and
    renders exactly what it renders for that test (only the value of the
    selection control differs); when the store is empty it renders the arena
    with no segments and no rows under the default title. *)
Theorem unknown_test_id_fallback (tests : Store) (st : PageState) :
  tests_property tests (activeTestId st) = js_undefined ->
  (store_get tests (activeTestId st) = None /\
   activeTestId st ∉ Object_prototype_members) /\
  activeTest tests (activeTestId st)
  = tests_property tests (default "undefined" (testIds tests !! 0%nat)) /\
  (forall k t rest, tests = (k, t) :: rest ->
     activeTest tests (activeTestId st) = js_own t /\
     Page tests st
     = with_select_value (activeTestId st)
         <$> Page tests (mkPageState k (hiddenSteps st) (effectDeps st))) /\
  (tests = [] ->
     exists ls, render_letters = Ok ls /\
       Page tests st
       = Ok (mkPageView "Dressage Test" (activeTestId st) []
               (if showAnyHidden (hiddenSteps st) then "Some hidden" else "All visible")
               render_arena ls [] [])).
Proof.
  intros Hundef.
  assert (Hact : activeTest tests (activeTestId st)
                 = tests_property tests (default "undefined" (testIds tests !! 0%nat))).
  { unfold activeTest. by rewrite Hundef. }
  split; [by apply js_property_undefined_iff |].
  split; [exact Hact |]. split.
  - intros k t rest ->.
    assert (Hk : activeTest ((k, t) :: rest) k = js_own t).
    { apply activeTest_own, store_get_head. }
    assert (Hfirst : activeTest ((k, t) :: rest) (activeTestId st) = js_own t).
    { rewrite Hact. cbn [testIds Object_keys fmap list_fmap lookup list_lookup default fst].
      apply tests_property_own, store_get_head. }
    split; [exact Hfirst |].
    unfold Page. cbn [activeTestId hiddenSteps]. rewrite Hk, Hfirst.
    destruct render_letters as [ls | m]; [| done].
    by destruct (render_path (hiddenSteps st) (segments (js_own t))).
  - intros ->. destruct render_letters_ok as (ls & Hls & _).
    exists ls. split; [done |]. unfold Page. rewrite Hls, Hact.
    change (tests_property [] (default "undefined" (testIds [] !! 0%nat)))
      with (@js_undefined TestDef).
    reflexivity.
Qed.

Lemma unknown_test_id_fallback_witness :
  activeTest TESTS "freestyle"
  = tests_property TESTS (default "undefined" (testIds TESTS !! 0%nat)).
Proof.
  apply (unknown_test_id_fallback TESTS (mkPageState "freestyle" ∅ (Some "freestyle"))).
  reflexivity.
Defined.

(** For an id that is no key of the store but names a member inherited from
    [Object.prototype], the lookup yields that member: there is no fallback,
    and the page shows no rows and no segments under the name of the member
    ([Object] for [constructor]). *)
Remark inherited_test_id_renders_empty_page (tests : Store) (st : PageState) :
  store_get tests (activeTestId st) = None ->
  activeTestId st ∈ Object_prototype_members ->
  activeTest tests (activeTestId st) = js_inherited (activeTestId st) /\
  exists v, Page tests st = Ok v /\
    subtitle v = default "Dressage Test" (inherited_name (activeTestId st)) /\
    path v = [] /\ table v = [].
Proof.
  intros Hnone Hin.
  assert (Hact : activeTest tests (activeTestId st) = js_inherited (activeTestId st)).
  { unfold activeTest, tests_property, js_property.
    by rewrite Hnone, bool_decide_eq_true_2. }
  split; [exact Hact |].
  unfold Page. rewrite Hact. destruct render_letters_ok as (ls & -> & _).
  eexists. split; [reflexivity |]. by repeat split.
Qed.

Remark constructor_test_id_is_titled_Object :
  subtitle <$> Page TESTS (mkPageState "constructor" ∅ (Some "constructor")) = Ok "Object".
Proof. reflexivity. Qed.

(** ** Step visibility *)

Lemma isStepVisible_true (hidden : gset Z) (s : Z) :
  isStepVisible hidden s = true <-> s ∉ hidden.
Proof. unfold isStepVisible. by rewrite negb_true_iff, bool_decide_eq_false. Qed.

Lemma isStepVisible_false (hidden : gset Z) (s : Z) :
  isStepVisible hidden s = false <-> s ∈ hidden.
Proof. unfold isStepVisible. by rewrite negb_false_iff, bool_decide_eq_true. Qed.

Lemma elem_of_toggleStep (s : Z) (on : bool) (prev : gset Z) (t : Z) :
  t ∈ toggleStep s on prev <-> if on then t ∈ prev /\ t <> s else t = s \/ t ∈ prev.
Proof. unfold toggleStep. destruct on; set_solver. Qed.

Lemma last_call_snoc (s : Z) (calls : list (Z * bool)) (c : Z * bool) :
  last_call s (calls ++ [c]) = if decide (c.1 = s) then Some c.2 else last_call s calls.
Proof.
  unfold last_call. rewrite filter_app, filter_cons, filter_nil.
  destruct (decide (c.1 = s)); [by rewrite last_snoc | by rewrite app_nil_r].
Qed.

Lemma toggles_snoc (calls : list (Z * bool)) (c : Z * bool) (hidden : gset Z) :
  toggles (calls ++ [c]) hidden = toggleStep c.1 c.2 (toggles calls hidden).
Proof. unfold toggles. by rewrite foldl_snoc. Qed.

Lemma elem_of_toggles (calls : list (Z * bool)) (hidden : gset Z) (s : Z) :
  s ∈ toggles calls hidden <->
  match last_call s calls with
  | Some on => on = false
  | None => s ∈ hidden
  end.
Proof.
  induction calls as [| c calls IH] using rev_ind; [done |].
  rewrite toggles_snoc, last_call_snoc, elem_of_toggleStep.
  destruct c as [t on]; cbn [fst snd].
  destruct (decide (t = s)) as [-> | Hne].
  - destruct on; naive_solver.
  - destruct on; rewrite IH; naive_solver.
Qed.

(** C6: after any finite sequence of toggle calls from any hidden set,
    [isStepVisible s] is true exactly when [s] is not a member of the hidden
    set (and false exactly when it is); its value is the flag of the last
    call made for [s], or the earlier visibility when there was none. *)
Theorem isStepVisible_negates_membership
    (hidden : gset Z) (calls : list (Z * bool)) (s : Z) :
  (isStepVisible (toggles calls hidden) s = true <-> s ∉ toggles calls hidden) /\
  (isStepVisible (toggles calls hidden) s = false <-> s ∈ toggles calls hidden) /\
  isStepVisible (toggles calls hidden) s
  = match last_call s calls with
    | Some on => on
    | None => isStepVisible hidden s
    end.
Proof.
  split; [apply isStepVisible_true |]. split; [apply isStepVisible_false |].
  destruct (isStepVisible (toggles calls hidden) s) eqn:Hvis.
  - apply isStepVisible_true in Hvis. rewrite elem_of_toggles in Hvis.
    destruct (last_call s calls) as [[] |]; [done | done |].
    symmetry. by apply isStepVisible_true.
  - apply isStepVisible_false in Hvis. rewrite elem_of_toggles in Hvis.
    destruct (last_call s calls) as [on |]; [done |].
    symmetry. by apply isStepVisible_false.
Qed.

(** C8: [toggleStep s true] yields the hidden set with [s] removed,
    [toggleStep s false] the hidden set with [s] inserted, and two successive
    calls with the same arguments give the same set as one. *)
Theorem toggleStep_remove_insert_idempotent (s : Z) (b : bool) (hidden : gset Z) :
  toggleStep s true hidden = hidden ∖ {[s]} /\
  toggleStep s false hidden = {[s]} ∪ hidden /\
  (forall t, t ∈ toggleStep s true hidden <-> t ∈ hidden /\ t <> s) /\
  (forall t, t ∈ toggleStep s false hidden <-> t = s \/ t ∈ hidden) /\
  toggleStep s b (toggleStep s b hidden) = toggleStep s b hidden.
Proof.
  split; [reflexivity |].
  split; [unfold toggleStep; set_solver |].
  split; [intros t; apply (elem_of_toggleStep s true) |].
  split; [intros t; apply (elem_of_toggleStep s false) |].
  destruct b; unfold toggleStep; set_solver.
Qed.

(** ** Bulk toggling and test switching *)

Lemma run_effects_settled (st : PageState) : settled (run_effects st).
Proof.
  unfold run_effects, settled. case_bool_decide as Hdeps; [exact Hdeps | reflexivity].
Qed.

Lemma run_effects_id (st : PageState) : settled st -> run_effects st = st.
Proof. unfold run_effects, settled. intros Hst. by rewrite bool_decide_eq_true_2. Qed.

(** Every state the page can be observed in is settled. *)
Lemma mount_settled (tests : Store) : settled (mount tests).
Proof. apply run_effects_settled. Qed.

Lemma dispatch_settled (tests : Store) (ev : Event) (st : PageState) :
  settled (dispatch tests ev st).
Proof. apply run_effects_settled. Qed.

Lemma elem_of_segment_steps (segs : list Segment) (acc : gset Z) (s : Z) :
  s ∈ foldl (fun set seg => set ∪ {[seg_step seg]}) acc segs <->
  s ∈ acc \/ exists seg, seg ∈ segs /\ seg_step seg = s.
Proof.
  revert acc. induction segs as [| a segs IH]; intros acc; cbn [foldl].
  - split; [by left |]. intros [Hacc | (seg & Hseg & _)]; [done |].
    by apply elem_of_nil in Hseg.
  - rewrite IH, elem_of_union, elem_of_singleton. split.
    + intros [[Hacc | ->] | (seg & Hseg & Hs)]; [by left | |].
      * right. exists a. split; [apply elem_of_cons; by left | done].
      * right. exists seg. split; [apply elem_of_cons; by right | done].
    + intros [Hacc | (seg & Hseg & Hs)]; [by left; left |].
      apply elem_of_cons in Hseg as [-> | Hseg]; [by left; right |].
      right. by exists seg.
Qed.

Lemma elem_of_stepsInSegments (segs : list Segment) (s : Z) :
  s ∈ stepsInSegments segs <-> exists seg, seg ∈ segs /\ seg_step seg = s.
Proof.
  unfold stepsInSegments. rewrite merge_sort_Permutation, elem_of_elements.
  rewrite elem_of_segment_steps. split; [| by right].
  intros [Hempty | Hseg]; [by apply not_elem_of_empty in Hempty | done].
Qed.

Lemma stepsInSegments_ascending (segs : list Segment) :
  Sorted Z.le (stepsInSegments segs) /\ NoDup (stepsInSegments segs).
Proof.
  unfold stepsInSegments. split.
  - apply (Sorted_merge_sort Z.le).
  - rewrite merge_sort_Permutation. apply NoDup_elements.
Qed.

Lemma uncheck_all_hidden (tests : Store) (st : PageState) :
  settled st ->
  hiddenSteps (dispatch tests click_uncheck_all st)
  = list_to_set (stepsInSegments (segments (activeTest tests (activeTestId st)))).
Proof.
  intros Hst. unfold dispatch. rewrite run_effects_id; [reflexivity | exact Hst].
Qed.

(** C3: from every visibility state, after [toggleAllSteps(false)] the hidden
    set is exactly the set of step numbers that occur in a segment of the
    active test: every such step is reported invisible, and a step that
    occurs in no segment (such as a rows-only step) is visible afterwards if
    it was visible before. *)
Theorem uncheck_all_hides_segment_steps (tests : Store) (st : PageState) :
  settled st ->
  let segs := segments (activeTest tests (activeTestId st)) in
  let st' := dispatch tests click_uncheck_all st in
  (forall s, s ∈ hiddenSteps st' <-> exists seg, seg ∈ segs /\ seg_step seg = s) /\
  (forall seg, seg ∈ segs -> isStepVisible (hiddenSteps st') (seg_step seg) = false) /\
  (forall s, (forall seg, seg ∈ segs -> seg_step seg <> s) ->
     isStepVisible (hiddenSteps st) s = true ->
     isStepVisible (hiddenSteps st') s = true).
Proof.
  intros Hst segs st'.
  assert (Hmem : forall s, s ∈ hiddenSteps st' <-> exists seg, seg ∈ segs /\ seg_step seg = s).
  { intros s. subst st' segs. rewrite uncheck_all_hidden by exact Hst.
    by rewrite elem_of_list_to_set, elem_of_stepsInSegments. }
  split; [exact Hmem |]. split.
  - intros seg Hseg. apply isStepVisible_false, Hmem. by exists seg.
  - intros s Hnone _. apply isStepVisible_true. rewrite Hmem.
    intros (seg & Hseg & Hs). by apply (Hnone seg).
Qed.

(** In the seeded test step 9 has a row but no segment: it is visible before
    and after the bulk hide, while steps 1 to 8 are hidden. *)
Lemma uncheck_all_hides_segment_steps_witness :
  let st' := dispatch TESTS click_uncheck_all (mount TESTS) in
  (exists r, r ∈ introA_rows /\ step r = 9) /\
  isStepVisible (hiddenSteps st') 9 = true /\
  isStepVisible (hiddenSteps st') 3 = false.
Proof.
  destruct (uncheck_all_hides_segment_steps TESTS (mount TESTS) (mount_settled TESTS))
    as (_ & Hin & Hout).
  split; [| split].
  - exists (mkStepRow 9 "X" "Halt and salute"
              (Some "Straightness; attentiveness; immobility (min. 3 seconds)")).
    split; [| reflexivity]. unfold introA_rows.
    do 11 (apply elem_of_cons; right). apply elem_of_cons. by left.
  - apply Hout; [| reflexivity].
    intros seg Hseg. vm_compute in Hseg.
    repeat (apply elem_of_cons in Hseg as [-> | Hseg]; [discriminate |]).
    by apply elem_of_nil in Hseg.
  - apply (Hin (circle 3 "B" dir_right)). vm_compute.
    do 2 (apply elem_of_cons; right). apply elem_of_cons. by left.
Defined.

(** A rows-only step that had been hidden by its own checkbox is visible
    again after the bulk hide: the hidden set is replaced, not extended. *)
Remark uncheck_all_replaces_hidden_set :
  let st := dispatch TESTS (checkbox_change 9 false) (mount TESTS) in
  isStepVisible (hiddenSteps st) 9 = false /\
  isStepVisible (hiddenSteps (dispatch TESTS click_uncheck_all st)) 9 = true.
Proof. split; reflexivity. Qed.

(** C7: when the selection changes the active test id, the hidden set is
    empty once the effect of the switch has run, whatever it was before, so
    every step (in particular every step of the newly active test) is
    visible. *)
Theorem switching_test_clears_hidden (tests : Store) (st : PageState) (value : string) :
  settled st -> value <> activeTestId st ->
  let st' := dispatch tests (select_change value) st in
  activeTestId st' = value /\
  hiddenSteps st' = ∅ /\
  (forall s, isStepVisible (hiddenSteps st') s = true).
Proof.
  intros Hst Hne. unfold dispatch, run_effects, settled in *. cbn.
  rewrite bool_decide_eq_false_2 by congruence. cbn.
  split; [reflexivity |]. split; [reflexivity |].
  intros s. apply isStepVisible_true, not_elem_of_empty.
Qed.

(** The update requested by the selection handler alone leaves the hidden
    set as it was; it is the effect that empties it. *)
Remark select_change_before_effect (tests : Store) (st : PageState) (value : string) :
  hiddenSteps (handle tests (select_change value) st) = hiddenSteps st.
Proof. reflexivity. Qed.

Lemma switching_test_clears_hidden_witness :
  let st := dispatch TESTS click_uncheck_all (mount TESTS) in
  isStepVisible (hiddenSteps st) 3 = false /\
  hiddenSteps (dispatch TESTS (select_change "introB") st) = ∅.
Proof.
  split; [reflexivity |].
  apply (switching_test_clears_hidden TESTS
           (dispatch TESTS click_uncheck_all (mount TESTS)) "introB").
  - apply dispatch_settled.
  - discriminate.
Defined.

(** ** Drawing the visible segments *)

Lemma drawn_cons (c : option Svg) (cs : list (option Svg)) :
  drawn (c :: cs) = match c with Some e => e :: drawn cs | None => drawn cs end.
Proof. by destruct c. Qed.

Lemma mapM_DrawSegment_cons (a : Segment) (segs : list Segment) :
  mapM DrawSegment (a :: segs)
  = c ← DrawSegment a; cs ← mapM DrawSegment segs; Ok (c :: cs).
Proof. reflexivity. Qed.

(** The drawing (or the exception) is the one of the segments whose step
    is not hidden, taken in list order. *)
Lemma render_path_visible (hidden : gset Z) (segs : list Segment) :
  drawn <$> render_path hidden segs
  = drawn <$> mapM DrawSegment (filter (fun seg => seg_step seg ∉ hidden) segs).
Proof.
  induction segs as [| a segs IH]; [reflexivity |].
  rewrite render_path_cons, filter_cons.
  destruct (isStepVisible hidden (seg_step a)) eqn:Hvis.
  - apply isStepVisible_true in Hvis. rewrite decide_True by exact Hvis.
    rewrite mapM_DrawSegment_cons.
    destruct (DrawSegment a) as [c | m]; [| reflexivity].
    destruct (render_path hidden segs) as [cs | m],
             (mapM DrawSegment (filter _ segs)) as [cs' | m'];
      cbn [fmap result_fmap mbind result_bind] in IH |- *;
      try discriminate; [| exact IH].
    injection IH as IH. by rewrite !drawn_cons, IH.
  - apply isStepVisible_false in Hvis. rewrite decide_False by (by intros Hn).
    rewrite <- IH. by destruct (render_path hidden segs).
Qed.

(** C5: the drawing consists of the segments of the active test whose step
    is not hidden, in list order.  For the seeded test (nine steps, eight
    segments), hiding step 3 replaces the third child, the circle anchored at
    B, by nothing and leaves the other seven segments and the eleven letter
    labels as they were; step 3 is then invisible and step 1 visible. *)
Theorem hidden_step_segments_omitted :
  (forall hidden segs,
     drawn <$> render_path hidden segs
     = drawn <$> mapM DrawSegment (filter (fun seg => seg_step seg ∉ hidden) segs)) /\
  (forall tests st,
     path <$> Page tests st
     = (render_letters ≫= fun _ =>
        render_path (hiddenSteps st) (segments (activeTest tests (activeTestId st))))) /\
  let st0 := mount TESTS in
  let st1 := dispatch TESTS (checkbox_change 3 false) st0 in
  let segs := segments (activeTest TESTS (activeTestId st1)) in
  exists v0 v1,
    Page TESTS st0 = Ok v0 /\ Page TESTS st1 = Ok v1 /\
    length segs = 8%nat /\ length (groupByStep (stepRows (activeTest TESTS (activeTestId st1)))) = 9%nat /\
    segs !! 2%nat = Some (circle 3 "B" dir_right) /\
    drawn (path v0) = [
      svg_polyline [(124, 424); (124, 224); (124, 24)];
      svg_polyline [(124, 24); (224, 84)];
      svg_circle 124 224 100;
      svg_polyline [(24, 364); (124, 224); (224, 84)];
      svg_circle 124 224 100;
      svg_polyline [(24, 224); (124, 24); (24, 84)];
      svg_polyline [(24, 84); (124, 224); (224, 364)];
      svg_polyline [(224, 364); (124, 424); (124, 224)]
    ]%float /\
    path v1 = <[2%nat := None]> (path v0) /\
    drawn (path v1) = delete 2%nat (drawn (path v0)) /\
    length (drawn (path v1)) = 7%nat /\
    letters v1 = letters v0 /\ length (letters v1) = 11%nat /\
    content_of_letters (letters v1) = LETTERS /\
    isStepVisible (hiddenSteps st1) 3 = false /\
    isStepVisible (hiddenSteps st1) 1 = true.
Proof.
  split; [exact render_path_visible |]. split.
  - intros tests st. unfold Page.
    destruct render_letters as [ls | m]; [| reflexivity]. cbn [mbind result_bind].
    by destruct (render_path _ _).
  - cbn zeta.
    destruct (Page TESTS (mount TESTS)) as [v0 | m0] eqn:H0; [| vm_compute in H0; discriminate].
    destruct (Page TESTS (dispatch TESTS (checkbox_change 3 false) (mount TESTS)))
      as [v1 | m1] eqn:H1; [| vm_compute in H1; discriminate].
    exists v0, v1.
    vm_compute in H0, H1. injection H0 as <-. injection H1 as <-.
    repeat split; reflexivity.
Qed.

(** ** Table grouping *)

Lemma elem_of_firstSeen (l : list Z) (a : Z) : a ∈ firstSeen l <-> a ∈ l.
Proof.
  induction l as [| b l IH]; [done |]. cbn [firstSeen].
  rewrite !elem_of_cons, list_elem_of_filter, IH.
  destruct (decide (a = b)); naive_solver.
Qed.

Lemma firstSeen_NoDup (l : list Z) : NoDup (firstSeen l).
Proof.
  induction l as [| b l IH]; [constructor |]. cbn [firstSeen].
  apply NoDup_cons. split; [| by apply NoDup_filter].
  rewrite list_elem_of_filter. naive_solver.
Qed.

(** A value met again later leaves the list unchanged; a new value is
    appended at the end. *)
Lemma firstSeen_snoc (l : list Z) (a : Z) :
  firstSeen (l ++ [a]) = if decide (a ∈ l) then firstSeen l else firstSeen l ++ [a].
Proof.
  induction l as [| b l IH]; [done |].
  cbn [app firstSeen]. rewrite IH.
  destruct (decide (a ∈ l)) as [Hin | Hout].
  - rewrite decide_True; [done | by apply elem_of_cons; right].
  - rewrite filter_app, filter_cons, filter_nil.
    destruct (decide (a <> b)) as [Hne | Heq], (decide (a ∈ b :: l)) as [Hin | Hout'].
    + apply elem_of_cons in Hin as [-> | Hin]; done.
    + done.
    + by rewrite app_nil_r.
    + exfalso. apply Hout', elem_of_cons. left. by destruct (decide (a = b)).
Qed.

Lemma filter_none {A} (P : A -> Prop) `{!forall a, Decision (P a)} (l : list A) :
  (forall a, a ∈ l -> ~ P a) -> filter P l = [].
Proof.
  induction l as [| b l IH]; intros Hall; [done |].
  rewrite filter_cons, decide_False.
  - apply IH. intros a Ha. apply Hall, elem_of_cons. by right.
  - apply Hall, elem_of_cons. by left.
Qed.

(** The state of the loop of [groupByStep] after the rows [rows]. *)
Lemma groupByStep_loop (rows : list StepRow) :
  exists groups,
    foldl groupByStep_body (∅, []) rows = (groups, firstSeen (step <$> rows)) /\
    forall s, groups !! s
              = if decide (s ∈ step <$> rows)
                then Some (filter (fun r => step r = s) rows) else None.
Proof.
  induction rows as [| r rows (groups & Hloop & Hlook)] using rev_ind.
  - exists ∅. split; [done |]. intros s. rewrite lookup_empty, decide_False; [done |].
    apply not_elem_of_nil.
  - rewrite foldl_snoc, Hloop, fmap_app.
    change (step <$> [r]) with [step r]. rewrite firstSeen_snoc.
    unfold groupByStep_body. rewrite (Hlook (step r)).
    destruct (decide (step r ∈ step <$> rows)) as [Hin | Hout].
    + rewrite bool_decide_eq_true_2 by done.
      eexists. split; [reflexivity |]. intros s.
      rewrite lookup_alter, filter_app, filter_cons, filter_nil.
      destruct (decide (step r = s)) as [<- | Hne].
      * rewrite Hlook, decide_True by done.
        by rewrite decide_True by (apply elem_of_app; by left).
      * rewrite Hlook, app_nil_r.
        destruct (decide (s ∈ step <$> rows)) as [Hs | Hs].
        -- by rewrite decide_True by (apply elem_of_app; by left).
        -- rewrite decide_False; [done |].
           rewrite elem_of_app, list_elem_of_singleton. naive_solver.
    + rewrite bool_decide_eq_false_2 by (by intros [? ?]).
      eexists. split; [reflexivity |]. intros s.
      rewrite lookup_alter, filter_app, filter_cons, filter_nil.
      destruct (decide (step r = s)) as [<- | Hne].
      * rewrite lookup_insert_eq. cbn [fmap option_fmap option_map].
        rewrite decide_True by (rewrite elem_of_app, list_elem_of_singleton; by right).
        rewrite filter_none; [done |].
        intros a Ha Heq. apply Hout. rewrite <- Heq. by apply list_elem_of_fmap_2.
      * rewrite lookup_insert_ne by done. rewrite Hlook, app_nil_r.
        destruct (decide (s ∈ step <$> rows)) as [Hs | Hs].
        -- by rewrite decide_True by (apply elem_of_app; by left).
        -- rewrite decide_False; [done |].
           rewrite elem_of_app, list_elem_of_singleton. naive_solver.
Qed.

(** [groupByStep] against its specification: one group per distinct step in
    order of first occurrence, holding the rows of that step in row order. *)
Lemma groupByStep_spec (rows : list StepRow) :
  groupByStep rows
  = (fun s => mkGroup s (filter (fun r => step r = s) rows)) <$> firstSeen (step <$> rows).
Proof.
  unfold groupByStep. destruct (groupByStep_loop rows) as (groups & -> & Hlook).
  apply list_fmap_ext. intros i s Hs.
  apply list_elem_of_lookup_2 in Hs. rewrite elem_of_firstSeen in Hs.
  cbn beta. rewrite Hlook, decide_True by done. reflexivity.
Qed.

Lemma filter_all {A} (P : A -> Prop) `{!forall a, Decision (P a)} (l : list A) :
  (forall a, a ∈ l -> P a) -> filter P l = l.
Proof.
  induction l as [| b l IH]; intros Hall; [done |].
  rewrite filter_cons, decide_True.
  - f_equal. apply IH. intros a Ha. apply Hall, elem_of_cons. by right.
  - apply Hall, elem_of_cons. by left.
Qed.

Section partition_by_key.
Context {A : Type} (f : A -> Z).

Lemma filter_key_cons (k : Z) (ks : list Z) (l : list A) :
  k ∉ ks ->
  filter (fun a => f a ∈ k :: ks) l
  ≡ₚ filter (fun a => f a = k) l ++ filter (fun a => f a ∈ ks) l.
Proof.
  intros Hk. induction l as [| a l IH]; [done |].
  rewrite !filter_cons.
  destruct (decide (f a = k)) as [Heq | Hne].
  - rewrite decide_True by (apply elem_of_cons; by left).
    rewrite decide_False by (by rewrite Heq).
    cbn [app]. by rewrite IH.
  - destruct (decide (f a ∈ ks)) as [Hin | Hout].
    + rewrite decide_True by (apply elem_of_cons; by right).
      by rewrite IH, Permutation_middle.
    + rewrite decide_False; [exact IH |].
      rewrite elem_of_cons. naive_solver.
Qed.

Lemma join_filter_keys (ks : list Z) (l : list A) :
  NoDup ks ->
  mjoin ((fun k => filter (fun a => f a = k) l) <$> ks)
  ≡ₚ filter (fun a => f a ∈ ks) l.
Proof.
  induction 1 as [| k ks Hk _ IH].
  - cbn. rewrite filter_none; [done |]. intros a _. apply not_elem_of_nil.
  - cbn [fmap list_fmap mjoin list_join]. rewrite filter_key_cons by exact Hk.
    by apply Permutation_app_head.
Qed.
End partition_by_key.

Lemma groupByStep_rows_Permutation (rows : list StepRow) :
  mjoin (g_rows <$> groupByStep rows) ≡ₚ rows.
Proof.
  rewrite groupByStep_spec, <- list_fmap_compose.
  etrans;
    [apply (join_filter_keys step (firstSeen (step <$> rows)) rows), firstSeen_NoDup |].
  rewrite filter_all; [done |].
  intros r Hr. apply elem_of_firstSeen. by apply list_elem_of_fmap_2.
Qed.

Lemma elem_of_groupByStep (rows : list StepRow) (g : Group) :
  g ∈ groupByStep rows <->
  (exists r, r ∈ rows /\ step r = g_step g) /\
  g_rows g = filter (fun r => step r = g_step g) rows.
Proof.
  rewrite groupByStep_spec, list_elem_of_fmap. split.
  - intros (s & -> & Hs). cbn [g_step g_rows]. split; [| done].
    rewrite elem_of_firstSeen in Hs.
    apply list_elem_of_fmap in Hs as (r & -> & Hr). by exists r.
  - intros ((r & Hr & Hs) & Hrows). exists (g_step g). split.
    + destruct g as [s rs]. cbn [g_step g_rows] in *. by rewrite Hrows.
    + apply elem_of_firstSeen. rewrite <- Hs. by apply list_elem_of_fmap_2.
Qed.

Lemma groupByStep_rows_nonempty (rows : list StepRow) (g : Group) :
  g ∈ groupByStep rows -> g_rows g <> [].
Proof.
  rewrite elem_of_groupByStep. intros ((r & Hr & Hs) & Hrows) Hnil.
  assert (r ∈ g_rows g) as Hin by (rewrite Hrows; by apply list_elem_of_filter).
  rewrite Hnil in Hin. by apply elem_of_nil in Hin.
Qed.

Lemma omap_cons_eq {B C} (h : B -> option C) (b : B) (l : list B) :
  omap h (b :: l) = match h b with Some c => c :: omap h l | None => omap h l end.
Proof. reflexivity. Qed.

Lemma omap_imap_none {A B C} (h : B -> option C) (f : nat -> A -> B) (l : list A) :
  (forall i a, h (f i a) = None) -> omap h (imap f l) = [].
Proof.
  revert f. induction l as [| a l IH]; intros f Hnone; [done |].
  rewrite imap_cons, omap_cons_eq, Hnone. apply IH. intros i b. apply Hnone.
Qed.

(** One [<td rowSpan>] with a checkbox per group, on the first row of the
    group, spanning the rows of the group. *)
Lemma StepsTable4Col_checkboxes (rows : list StepRow) (vis : Z -> bool) :
  omap step_cell (StepsTable4Col rows vis)
  = (fun g => mkCheckbox (vis (g_step g)) (g_step g) (length (g_rows g)))
      <$> groupByStep rows.
Proof.
  unfold StepsTable4Col.
  assert (Hne : Forall (fun g => g_rows g <> []) (groupByStep rows)).
  { apply Forall_forall. intros g. apply groupByStep_rows_nonempty. }
  induction Hne as [| g gs Hg _ IH]; [done |].
  cbn [flat_map fmap list_fmap]. rewrite omap_app, IH.
  destruct (g_rows g) as [| r0 rest] eqn:Hrows; [done |].
  rewrite imap_cons, omap_cons_eq. cbn [step_cell].
  rewrite bool_decide_eq_true_2 by done.
  rewrite omap_imap_none; done.
Qed.

Lemma StepsTable4Col_length (rows : list StepRow) (vis : Z -> bool) :
  length (StepsTable4Col rows vis) = length rows.
Proof.
  rewrite <- (Permutation_length (groupByStep_rows_Permutation rows)).
  unfold StepsTable4Col. induction (groupByStep rows) as [| g gs IH]; [done |].
  cbn [flat_map fmap list_fmap mjoin list_join].
  by rewrite !length_app, length_imap, IH.
Qed.

Lemma fmap_imap_indep {A B C} (h : B -> C) (f : nat -> A -> B) (g : A -> C) (l : list A) :
  (forall i a, h (f i a) = g a) -> h <$> imap f l = g <$> l.
Proof.
  revert f. induction l as [| a l IH]; intros f Hf; [done |].
  rewrite imap_cons. cbn [fmap list_fmap]. rewrite Hf. f_equal.
  apply IH. intros i b. apply Hf.
Qed.

Lemma fmap_replicate_const {A C} (g : A -> C) (c : C) (l : list A) :
  (forall a, g a = c) -> g <$> l = replicate (length l) c.
Proof. intros Hg. induction l as [| a l IH]; [done |]. cbn. by rewrite Hg, IH. Qed.

Lemma fmap_imap_const {A B C} (h : B -> C) (f : nat -> A -> B) (c : C) (l : list A) :
  (forall i a, h (f i a) = c) -> h <$> imap f l = replicate (length l) c.
Proof.
  intros Hf. rewrite (fmap_imap_indep h f (fun _ => c)) by exact Hf.
  by apply fmap_replicate_const.
Qed.

Lemma StepsTable4Col_text_cells (rows : list StepRow) (vis : Z -> bool) :
  (fun tr => (where_cell tr, directive_cell tr, ideas_cell tr)) <$> StepsTable4Col rows vis
  = (fun r => (where_ r, directive r, default "" (ideas r)))
      <$> mjoin (g_rows <$> groupByStep rows).
Proof.
  unfold StepsTable4Col. induction (groupByStep rows) as [| g gs IH]; [done |].
  cbn [flat_map fmap list_fmap mjoin list_join]. rewrite !fmap_app. f_equal; [| exact IH].
  by apply fmap_imap_indep.
Qed.

Lemma table_keys (gs : list Group) (cell : Group -> nat -> StepRow -> TableRow) :
  (forall g i r, key (cell g i r) = (g_step g, i)) ->
  key <$> flat_map (fun g => imap (cell g) (g_rows g)) gs
  = flat_map (fun g => (fun i => (g_step g, i)) <$> seq 0 (length (g_rows g))) gs.
Proof.
  intros Hkey. induction gs as [| g gs IH]; [done |].
  cbn [flat_map]. rewrite fmap_app, IH. f_equal.
  rewrite fmap_imap, <- imap_seq_0. apply imap_ext. intros i r _. apply Hkey.
Qed.

Lemma StepsTable4Col_step_cells (rows : list StepRow) (vis : Z -> bool) :
  step_cell <$> StepsTable4Col rows vis
  = mjoin ((fun g =>
              Some (mkCheckbox (vis (g_step g)) (g_step g) (length (g_rows g)))
              :: replicate (length (g_rows g) - 1) None)
           <$> groupByStep rows).
Proof.
  unfold StepsTable4Col.
  assert (Hne : Forall (fun g => g_rows g <> []) (groupByStep rows)).
  { apply Forall_forall. intros g. apply groupByStep_rows_nonempty. }
  induction Hne as [| g gs Hg _ IH]; [done |].
  cbn [flat_map fmap list_fmap mjoin list_join]. rewrite fmap_app. f_equal; [| exact IH].
  destruct (g_rows g) as [| r0 rest]; [done |].
  rewrite imap_cons. cbn [fmap list_fmap step_cell].
  rewrite bool_decide_eq_true_2 by done. f_equal.
  replace (length (r0 :: rest) - 1)%nat with (length rest) by (cbn [length]; lia).
  by apply fmap_imap_const.
Qed.

Lemma StepsTable4Col_keys (rows : list StepRow) (vis : Z -> bool) :
  key <$> StepsTable4Col rows vis
  = flat_map (fun g => (fun i => (g_step g, i)) <$> seq 0 (length (g_rows g)))
      (groupByStep rows).
Proof.
  unfold StepsTable4Col.
  by rewrite (table_keys (groupByStep rows)
                (fun g idx r =>
                   mkTableRow (g_step g, idx)
                     (if bool_decide (idx = 0%nat)
                      then Some (mkCheckbox (vis (g_step g)) (g_step g) (length (g_rows g)))
                      else None)
                     (where_ r) (directive r) (default "" (ideas r)))).
Qed.

(** C10: [groupByStep] produces exactly one group per distinct step value of
    the row list, in order of first occurrence; each group holds all the rows
    of its step, so a later row whose step was already seen joins the
    existing group.  The table shows the rows group by group, every row once:
    the first row of a group carries the one checkbox cell of the group,
    whose [rowSpan] is the number of rows of the group, and the following
    [rowSpan - 1] rows of the group carry none; the text cells are those of
    the rows of the groups, and the keys are the step of the group with the
    index of the row in the group. *)
Theorem groupByStep_one_group_per_step (rows : list StepRow) (vis : Z -> bool) :
  g_step <$> groupByStep rows = firstSeen (step <$> rows) /\
  NoDup (g_step <$> groupByStep rows) /\
  (forall s, s ∈ g_step <$> groupByStep rows <-> exists r, r ∈ rows /\ step r = s) /\
  (forall g, g ∈ groupByStep rows ->
     g_rows g = filter (fun r => step r = g_step g) rows /\ g_rows g <> []) /\
  (forall r, r ∈ rows ->
     exists g, g ∈ groupByStep rows /\ g_step g = step r /\ r ∈ g_rows g) /\
  (forall r, step r ∈ step <$> rows ->
     g_step <$> groupByStep (rows ++ [r]) = g_step <$> groupByStep rows) /\
  (forall r, step r ∉ step <$> rows ->
     groupByStep (rows ++ [r]) = groupByStep rows ++ [mkGroup (step r) [r]]) /\
  mjoin (g_rows <$> groupByStep rows) ≡ₚ rows /\
  length (StepsTable4Col rows vis) = length rows /\
  omap step_cell (StepsTable4Col rows vis)
  = (fun g => mkCheckbox (vis (g_step g)) (g_step g) (length (g_rows g)))
      <$> groupByStep rows /\
  step_cell <$> StepsTable4Col rows vis
  = mjoin ((fun g =>
              Some (mkCheckbox (vis (g_step g)) (g_step g) (length (g_rows g)))
              :: replicate (length (g_rows g) - 1) None)
           <$> groupByStep rows) /\
  (fun tr => (where_cell tr, directive_cell tr, ideas_cell tr)) <$> StepsTable4Col rows vis
  = (fun r => (where_ r, directive r, default "" (ideas r)))
      <$> mjoin (g_rows <$> groupByStep rows) /\
  key <$> StepsTable4Col rows vis
  = flat_map (fun g => (fun i => (g_step g, i)) <$> seq 0 (length (g_rows g)))
      (groupByStep rows).
Proof.
  assert (Hsteps : forall l, g_step <$> groupByStep l = firstSeen (step <$> l)).
  { intros l. rewrite groupByStep_spec, <- list_fmap_compose. apply list_fmap_id. }
  split; [apply Hsteps |].
  split; [rewrite Hsteps; apply firstSeen_NoDup |].
  split.
  { intros s. rewrite Hsteps, elem_of_firstSeen, list_elem_of_fmap. naive_solver. }
  split.
  { intros g Hg. split; [by apply elem_of_groupByStep in Hg as [_ ?] |].
    by apply (groupByStep_rows_nonempty rows). }
  split.
  { intros r Hr. exists (mkGroup (step r) (filter (fun r' => step r' = step r) rows)).
    split; [| split; [done | by apply list_elem_of_filter]].
    apply elem_of_groupByStep. split; [by exists r | done]. }
  split.
  { intros r Hr. rewrite !Hsteps, fmap_app.
    change (step <$> [r]) with [step r]. by rewrite firstSeen_snoc, decide_True. }
  split.
  { intros r Hr. rewrite !groupByStep_spec, fmap_app.
    change (step <$> [r]) with [step r].
    rewrite firstSeen_snoc, decide_False, fmap_app by done.
    cbn [fmap list_fmap]. f_equal.
    - apply list_fmap_ext. intros i s Hs. f_equal.
      rewrite filter_app, filter_cons, filter_nil, decide_False, app_nil_r; [done |].
      intros Heq. apply Hr. rewrite Heq. apply elem_of_firstSeen.
      by apply list_elem_of_lookup_2 in Hs.
    - rewrite filter_app, filter_cons, filter_nil, decide_True by done.
      rewrite filter_none; [done |].
      intros a Ha Heq. apply Hr. rewrite <- Heq. by apply list_elem_of_fmap_2. }
  split; [apply groupByStep_rows_Permutation |].
  split; [apply StepsTable4Col_length |].
  split; [apply StepsTable4Col_checkboxes |].
  split; [apply StepsTable4Col_step_cells |].
  split; [apply StepsTable4Col_text_cells | apply StepsTable4Col_keys].
Qed.

(** The seeded rows: twelve rows in nine groups; steps 1, 2 and 8 span two
    rows each, and the second row of each of them has no checkbox cell. *)
Lemma groupByStep_one_group_per_step_witness :
  g_step <$> groupByStep introA_rows = [1; 2; 3; 4; 5; 6; 7; 8; 9] /\
  step_cell <$> StepsTable4Col introA_rows (fun _ => true)
  = [Some (mkCheckbox true 1 2); None; Some (mkCheckbox true 2 2); None;
     Some (mkCheckbox true 3 1); Some (mkCheckbox true 4 1); Some (mkCheckbox true 5 1);
     Some (mkCheckbox true 6 1); Some (mkCheckbox true 7 1);
     Some (mkCheckbox true 8 2); None; Some (mkCheckbox true 9 1)] /\
  g_rows (mkGroup 9 [mkStepRow 9 "X" "Halt and salute"
                       (Some "Straightness; attentiveness; immobility (min. 3 seconds)")])
  <> [] /\
  omap step_cell (StepsTable4Col introA_rows (fun _ => true))
  = [mkCheckbox true 1 2; mkCheckbox true 2 2; mkCheckbox true 3 1;
     mkCheckbox true 4 1; mkCheckbox true 5 1; mkCheckbox true 6 1;
     mkCheckbox true 7 1; mkCheckbox true 8 2; mkCheckbox true 9 1].
Proof.
  destruct (groupByStep_one_group_per_step introA_rows (fun _ => true))
    as (Hsteps & _ & _ & Hgroup & _ & _ & _ & _ & _ & Hboxes & Hcells & _ & _).
  split; [rewrite Hsteps; reflexivity |].
  split; [rewrite Hcells; reflexivity |]. split.
  - apply Hgroup. vm_compute.
    do 8 (apply elem_of_cons; right). apply elem_of_cons. by left.
  - rewrite Hboxes. reflexivity.
Defined.

(** * Further properties of the page *)

(** ** Outcome of [toPoints] and of a page render *)

Lemma js_truthy_true {A} (v : JsLookup A) : js_truthy v = true <-> v <> js_undefined.
Proof. by destruct v. Qed.

Lemma toPoints_ok_iff (ids : list string) (pts : list (float * float)) :
  toPoints ids = Ok pts <->
  Forall2 (fun i pt => geom_at i <> js_undefined /\ pt = device_point (geom_at i)) ids pts.
Proof.
  revert pts. induction ids as [| a ids IH]; intros pts.
  - split.
    + intros [= <-]. constructor.
    + intros Hf. by apply Forall2_nil_inv_l in Hf as ->.
  - split.
    + destruct (js_truthy (geom_at a)) eqn:Ha.
      * rewrite toPoints_cons_defined by done.
        destruct (toPoints ids) as [pts' | m] eqn:Hrest; [| done].
        intros [= <-]. constructor; [| by apply IH].
        split; [by apply js_truthy_true | done].
      * apply js_truthy_false in Ha. by rewrite toPoints_cons_undefined.
    + intros Hf. apply Forall2_cons_inv_l in Hf as (pt & pts' & (Ha & ->) & Hrest & ->).
      apply js_truthy_true in Ha. rewrite toPoints_cons_defined by done.
      apply IH in Hrest. by rewrite Hrest.
Qed.

Lemma toPoints_first_unknown (pre : list string) (j : string) (post : list string) :
  Forall (fun i => geom_at i <> js_undefined) pre -> geom_at j = js_undefined ->
  toPoints (pre ++ j :: post) = Throw ("Unknown letter " +:+ j).
Proof.
  intros Hpre Hj. induction Hpre as [| a pre Ha _ IH]; cbn [app].
  - by apply toPoints_cons_undefined.
  - apply js_truthy_true in Ha. by rewrite toPoints_cons_defined, IH.
Qed.

Lemma toPoints_throw_iff (ids : list string) (msg : string) :
  toPoints ids = Throw msg <->
  exists pre j post,
    ids = pre ++ j :: post /\ Forall (fun i => geom_at i <> js_undefined) pre /\
    geom_at j = js_undefined /\ msg = "Unknown letter " +:+ j.
Proof.
  split.
  - revert msg. induction ids as [| a ids IH]; intros msg; [done |].
    destruct (js_truthy (geom_at a)) eqn:Ha.
    + rewrite toPoints_cons_defined by done.
      destruct (toPoints ids) as [pts | m]; [done |].
      intros [= <-]. destruct (IH m eq_refl) as (pre & j & post & -> & Hpre & Hj & ->).
      exists (a :: pre), j, post. split; [done |]. split; [| done].
      apply Forall_cons. split; [by apply js_truthy_true | done].
    + apply js_truthy_false in Ha. rewrite toPoints_cons_undefined by done.
      intros [= <-]. exists [], a, ids. by repeat split.
  - intros (pre & j & post & -> & Hpre & Hj & ->). by apply toPoints_first_unknown.
Qed.

Lemma device_point_own (i : string) (p : Point) :
  geom !! i = Some p -> device_point (geom_at i) = (Xpx (x p), Ypx (y p)).
Proof. intros Hp. by rewrite (geom_at_own _ _ Hp). Qed.

Lemma geom_at_inherited (i : string) :
  geom !! i = None -> geom_at i <> js_undefined -> geom_at i = js_inherited i.
Proof.
  unfold geom_at, js_property. intros ->. by case_bool_decide.
Qed.

(** X1: [toPoints] succeeds exactly when the lookup of every letter is
    defined, and then returns one device point per letter, in order: the
    projection of the marker for a letter of the geometry table, and NaN,NaN
    for the name of an inherited member.  Otherwise it throws, and the
    message names the first letter of the list whose lookup is
    [undefined]. *)
Theorem toPoints_outcome (ids : list string) :
  (forall pts,
     toPoints ids = Ok pts <->
     Forall2 (fun i pt => geom_at i <> js_undefined /\ pt = device_point (geom_at i))
       ids pts) /\
  (forall msg,
     toPoints ids = Throw msg <->
     exists pre j post,
       ids = pre ++ j :: post /\ Forall (fun i => geom_at i <> js_undefined) pre /\
       geom_at j = js_undefined /\ msg = "Unknown letter " +:+ j) /\
  (forall i p, geom !! i = Some p -> device_point (geom_at i) = (Xpx (x p), Ypx (y p))) /\
  (forall i, geom !! i = None -> geom_at i <> js_undefined ->
     i ∈ Object_prototype_members /\ device_point (geom_at i) = (nan, nan)).
Proof.
  split; [apply toPoints_ok_iff |]. split; [apply toPoints_throw_iff |].
  split; [apply device_point_own |].
  intros i Hnone Hdef. split.
  - destruct (decide (i ∈ Object_prototype_members)) as [Hin | Hout]; [done |].
    exfalso. apply Hdef. by apply geom_at_undefined_iff.
  - by rewrite (geom_at_inherited _ Hnone Hdef).
Qed.

Lemma toPoints_outcome_witness :
  device_point (geom_at "M") = (Xpx 200, Ypx 60) /\
  device_point (geom_at "toString") = (nan, nan).
Proof.
  destruct (toPoints_outcome []) as (_ & _ & Hown & Hinh). split.
  - apply (Hown "M" (mkPoint 200 60)). reflexivity.
  - apply Hinh; [reflexivity | discriminate].
Defined.

Lemma render_path_throw_inv (hidden : gset Z) (segs : list Segment) (msg : string) :
  render_path hidden segs = Throw msg ->
  exists seg, seg ∈ segs /\ isStepVisible hidden (seg_step seg) = true /\
    DrawSegment seg = Throw msg.
Proof.
  induction segs as [| a segs IH]; [done |].
  rewrite render_path_cons.
  destruct (isStepVisible hidden (seg_step a)) eqn:Hvis.
  - destruct (DrawSegment a) as [c | m] eqn:Hda.
    + destruct (render_path hidden segs) as [cs | m]; [done |].
      intros [= <-]. destruct (IH eq_refl) as (seg & Hseg & Hv & Hd).
      exists seg. split; [by apply elem_of_cons; right | done].
    + intros [= <-]. exists a. split; [apply elem_of_cons; by left | done].
  - destruct (render_path hidden segs) as [cs | m]; [done |].
    intros [= <-]. destruct (IH eq_refl) as (seg & Hseg & Hv & Hd).
    exists seg. split; [by apply elem_of_cons; right | done].
Qed.

(** X2: rendering the page throws exactly when some line segment of the
    active test whose step is visible has a waypoint whose lookup in the
    geometry table is [undefined]; hidden segments, circle segments and
    waypoints that name an inherited member never make it throw. *)
Theorem Page_throws_iff (tests : Store) (st : PageState) :
  throws (Page tests st) <->
  exists wps lbl s i,
    LineSeg wps lbl s ∈ segments (activeTest tests (activeTestId st)) /\
    isStepVisible (hiddenSteps st) s = true /\
    i ∈ wps /\ geom_at i = js_undefined.
Proof.
  unfold Page. destruct render_letters_ok as (ls & -> & _). cbn [mbind result_bind].
  split.
  - intros [msg Hmsg].
    destruct (render_path _ _) as [cs | m] eqn:Hpath; [done |].
    apply render_path_throw_inv in Hpath as (seg & Hseg & Hvis & Hdraw).
    destruct seg as [wps lbl s | at_ d lbl s]; [| done].
    exists wps, lbl, s. cbn [DrawSegment] in Hdraw.
    destruct (toPoints wps) as [pts | m'] eqn:Hpts; [done |].
    apply toPoints_throw_iff in Hpts as (pre & j & post & -> & _ & Hj & _).
    exists j. repeat split; [done | done | | done].
    apply elem_of_app. right. apply elem_of_cons. by left.
  - intros (wps & lbl & s & i & Hseg & Hvis & Hi & Hgi).
    destruct (toPoints_unknown wps i Hi Hgi) as (j & _ & _ & Hthrow).
    destruct (render_path_throws (hiddenSteps st) _ _ Hseg Hvis) as (j' & _ & ->).
    { exists ("Unknown letter " +:+ j). cbn [DrawSegment]. by rewrite Hthrow. }
    by eexists.
Qed.

Lemma render_path_all_hidden (hidden : gset Z) (segs : list Segment) :
  (forall seg, seg ∈ segs -> isStepVisible hidden (seg_step seg) = false) ->
  render_path hidden segs = Ok (replicate (length segs) None).
Proof.
  induction segs as [| a segs IH]; intros Hall; [done |].
  rewrite render_path_cons, Hall by (apply elem_of_cons; by left).
  rewrite IH; [done |]. intros seg Hseg. apply Hall, elem_of_cons. by right.
Qed.

Lemma drawn_replicate_None (n : nat) : drawn (replicate n None) = [].
Proof. by induction n. Qed.

(** X3: after "Uncheck all" the page always renders, whatever the segments of
    the active test refer to: every child of the path group is [null], so
    nothing of the path is drawn and no letter is looked up. *)
Theorem uncheck_all_renders_empty_path (tests : Store) (st : PageState) :
  settled st ->
  let st' := dispatch tests click_uncheck_all st in
  let segs := segments (activeTest tests (activeTestId st')) in
  exists v, Page tests st' = Ok v /\
    path v = replicate (length segs) None /\ drawn (path v) = [].
Proof.
  intros Hst st' segs.
  assert (Hpath : render_path (hiddenSteps st') segs = Ok (replicate (length segs) None)).
  { apply render_path_all_hidden. intros seg Hseg. apply isStepVisible_false.
    subst st' segs. rewrite uncheck_all_hidden by done.
    rewrite elem_of_list_to_set, elem_of_stepsInSegments.
    exists seg. split; [| done].
    unfold dispatch in Hseg. by rewrite run_effects_id in Hseg. }
  unfold Page. destruct render_letters_ok as (ls & -> & _). cbn [mbind result_bind].
  fold segs. rewrite Hpath. eexists. split; [reflexivity |].
  cbn [path]. split; [done | apply drawn_replicate_None].
Qed.

Lemma uncheck_all_renders_empty_path_witness :
  let tests := [("t", mkTestDef "t" "T" None None (Some [line 1 ["A"; "Z"]]))] in
  throws (Page tests (mount tests)) /\
  exists v, Page tests (dispatch tests click_uncheck_all (mount tests)) = Ok v /\
    path v = replicate 1 None /\ drawn (path v) = [].
Proof.
  split; [by eexists |].
  apply (uncheck_all_renders_empty_path
           [("t", mkTestDef "t" "T" None None (Some [line 1 ["A"; "Z"]]))]).
  apply mount_settled.
Defined.

(** ** Where things are drawn *)

(** X4: a point of a polyline produced by [toPoints] lies inside the arena
    rectangle (rails included) exactly when its letter is a marker of the
    geometry table; the point NaN,NaN printed for an inherited name does
    not. *)
Theorem toPoints_in_arena (ids : list string) (pts : list (float * float)) :
  toPoints ids = Ok pts ->
  Forall2 (fun i pt => in_arena pt = bool_decide (is_Some (geom !! i))) ids pts.
Proof.
  rewrite toPoints_ok_iff. induction 1 as [| i pt ids pts (Hdef & ->) _ IH];
    constructor; [| exact IH].
  destruct (geom !! i) as [p |] eqn:Hp.
  - rewrite (device_point_own _ _ Hp), bool_decide_eq_true_2 by (by eexists).
    geom_cases Hp; reflexivity.
  - rewrite (geom_at_inherited _ Hp Hdef), bool_decide_eq_false_2 by (by intros [? ?]).
    reflexivity.
Qed.

Lemma toPoints_in_arena_witness :
  Forall2 (fun i pt => in_arena pt = bool_decide (is_Some (geom !! i)))
    ["K"; "valueOf"; "M"] [(24, 364); (nan, nan); (224, 84)]%float.
Proof. apply (toPoints_in_arena ["K"; "valueOf"; "M"]). reflexivity. Defined.

(** X5: [labelPos] throws for a letter whose lookup in the geometry table is
    [undefined].  For a letter of the table it returns a position whose
    projection lies inside the [viewBox]; the label of a centerline letter
    (G, X, D) sits on the marker itself, every other label lies outside the
    arena rectangle.  For the name of an inherited member it returns a
    position without coordinates. *)
Theorem labelPos_placement (i : string) :
  (geom_at i = js_undefined -> labelPos i = Throw ("Unknown letter " +:+ i)) /\
  (forall p, geom !! i = Some p ->
     exists l, labelPos i = Ok l /\
       in_viewBox (Xpx (to_number (lx l)), Ypx (to_number (ly l))) = true /\
       (if isCenterLetter i
        then (lx l, ly l) = (Some (x p), Some (y p))
        else in_arena (Xpx (to_number (lx l)), Ypx (to_number (ly l))) = false)) /\
  (geom !! i = None -> geom_at i <> js_undefined ->
   labelPos i = Ok (mkLabelPos None None anchor_middle)).
Proof.
  split; [| split].
  - unfold geom_at, labelPos. by intros ->.
  - intros p Hp. pose proof Hp as Hp'. unfold labelPos. rewrite Hp'.
    geom_cases Hp; eexists; (split; [reflexivity |]); split; reflexivity.
  - intros Hnone Hdef.
    assert (Hin : i ∈ Object_prototype_members).
    { destruct (decide (i ∈ Object_prototype_members)) as [Hin | Hout]; [done |].
      exfalso. apply Hdef. by apply geom_at_undefined_iff. }
    clear Hnone Hdef. unfold Object_prototype_members in Hin.
    repeat (apply elem_of_cons in Hin as [-> | Hin]; [reflexivity |]).
    by apply elem_of_nil in Hin.
Qed.

Lemma labelPos_placement_witness :
  labelPos "Q" = Throw ("Unknown letter " +:+ "Q") /\
  (exists l, labelPos "K" = Ok l /\
     in_viewBox (Xpx (to_number (lx l)), Ypx (to_number (ly l))) = true /\
     in_arena (Xpx (to_number (lx l)), Ypx (to_number (ly l))) = false) /\
  labelPos "toString" = Ok (mkLabelPos None None anchor_middle).
Proof.
  destruct (labelPos_placement "Q") as (Hq & _ & _).
  destruct (labelPos_placement "K") as (_ & Hk & _).
  destruct (labelPos_placement "toString") as (_ & _ & Hs).
  split; [apply Hq; reflexivity |]. split.
  - apply (Hk (mkPoint 0 340)). reflexivity.
  - apply Hs; [reflexivity | discriminate].
Defined.

(** X6: the circle drawn for a marker of the geometry table touches both
    long rails and is centered at the height of the marker; when the marker
    is on a long rail the circle passes through it; the circle lies inside
    the arena rectangle exactly when the marker is at mid-height. *)
Theorem CircleAt_touches_rails (at_ : string) (p : Point) :
  geom !! at_ = Some p ->
  exists cx cy r,
    CircleAt at_ = Some (svg_circle cx cy r) /\
    (cx - r = Xpx 0)%float /\ (cx + r = Xpx ARENA_W)%float /\
    cy = Ypx (y p) /\
    (((x p =? 0) || (x p =? ARENA_W))%float = true ->
     abs (Xpx (x p) - cx) = r) /\
    (in_arena (cx, cy - r) && in_arena (cx, cy + r))%float = (y p =? Y_MID_20)%float.
Proof.
  intros Hp. pose proof Hp as Hp'. unfold CircleAt. rewrite Hp'.
  do 3 eexists. split; [reflexivity |].
  geom_cases Hp; repeat split; try reflexivity; intros Hrail; vm_compute in Hrail;
    discriminate.
Qed.

Lemma CircleAt_touches_rails_witness :
  exists cx cy r,
    CircleAt "B" = Some (svg_circle cx cy r) /\
    (cx - r = Xpx 0)%float /\ (cx + r = Xpx ARENA_W)%float /\
    cy = Ypx 200 /\
    (((200 =? 0) || (200 =? ARENA_W))%float = true -> abs (Xpx 200 - cx) = r) /\
    (in_arena (cx, cy - r) && in_arena (cx, cy + r))%float = (200 =? Y_MID_20)%float.
Proof. apply (CircleAt_touches_rails "B" (mkPoint 200 200)). reflexivity. Defined.

(** ** Composition of the visibility operations *)

(** X7: for one step the last [toggleStep] call decides; calls for different
    steps commute; hiding a visible step and showing it again (or showing a
    hidden step and hiding it again) restores the hidden set. *)
Theorem toggleStep_composition (s t : Z) (b c : bool) (hidden : gset Z) :
  toggleStep s b (toggleStep s c hidden) = toggleStep s b hidden /\
  (s <> t ->
   toggleStep s b (toggleStep t c hidden) = toggleStep t c (toggleStep s b hidden)) /\
  (s ∉ hidden -> toggleStep s true (toggleStep s false hidden) = hidden) /\
  (s ∈ hidden -> toggleStep s false (toggleStep s true hidden) = hidden).
Proof.
  split; [| split; [| split]].
  - apply set_eq. intros u. destruct b, c; unfold toggleStep; set_unfold;
      destruct (decide (u = s)); tauto.
  - intros Hne. apply set_eq. intros u. destruct b, c; unfold toggleStep; set_unfold;
      destruct (decide (u = s)), (decide (u = t)); subst; tauto.
  - intros Hs. apply set_eq. intros u. unfold toggleStep. set_unfold.
    destruct (decide (u = s)); subst; tauto.
  - intros Hs. apply set_eq. intros u. unfold toggleStep. set_unfold.
    destruct (decide (u = s)); subst; tauto.
Qed.

Lemma toggleStep_composition_witness :
  toggleStep 3 true (toggleStep 5 false {[3]})
  = toggleStep 5 false (toggleStep 3 true ({[3]} : gset Z)) /\
  toggleStep 3 true (toggleStep 3 false ∅) = (∅ : gset Z) /\
  toggleStep 3 false (toggleStep 3 true {[3]}) = ({[3]} : gset Z).
Proof.
  destruct (toggleStep_composition 3 5 true false {[3]}) as (_ & Hcomm & _ & Hin).
  destruct (toggleStep_composition 3 5 true false ∅) as (_ & _ & Hout & _).
  split; [apply Hcomm; lia |]. split; [apply Hout | apply Hin].
  - apply not_elem_of_empty.
  - apply elem_of_singleton. reflexivity.
Defined.

Lemma toggles_cons (c : Z * bool) (calls : list (Z * bool)) (hidden : gset Z) :
  toggles (c :: calls) hidden = toggles calls (toggleStep c.1 c.2 hidden).
Proof. reflexivity. Qed.

Lemma toggles_hide_all (l : list Z) (hidden : gset Z) :
  toggles ((fun s => (s, false)) <$> l) hidden = hidden ∪ list_to_set l.
Proof.
  revert hidden. induction l as [| s l IH]; intros hidden; cbn [fmap list_fmap].
  - cbn. set_solver.
  - rewrite toggles_cons, IH. cbn. unfold toggleStep. set_solver.
Qed.

Lemma toggles_show_all (l : list Z) (hidden : gset Z) :
  toggles ((fun s => (s, true)) <$> l) hidden = hidden ∖ list_to_set l.
Proof.
  revert hidden. induction l as [| s l IH]; intros hidden; cbn [fmap list_fmap].
  - cbn. set_solver.
  - rewrite toggles_cons, IH. cbn. unfold toggleStep. set_solver.
Qed.

Lemma dispatch_checkbox (tests : Store) (st : PageState) (s : Z) (on : bool) :
  settled st ->
  dispatch tests (checkbox_change s on) st
  = mkPageState (activeTestId st) (toggleStep s on (hiddenSteps st)) (effectDeps st).
Proof. intros Hst. unfold dispatch. by rewrite run_effects_id. Qed.

Lemma dispatch_checkboxes (tests : Store) (st : PageState) (calls : list (Z * bool)) :
  settled st ->
  foldl (fun a c => dispatch tests (checkbox_change c.1 c.2) a) st calls
  = mkPageState (activeTestId st) (toggles calls (hiddenSteps st)) (effectDeps st).
Proof.
  revert st. induction calls as [| c calls IH]; intros st Hst; cbn [foldl].
  - by destruct st.
  - rewrite IH by apply dispatch_settled.
    by rewrite dispatch_checkbox.
Qed.

(** X8: the bulk buttons agree with the checkboxes.  From a state with
    nothing hidden, unticking the box of every step of [stepsInSegments] one
    after the other gives the state of "Uncheck all"; ticking them all again
    gives back the state with nothing hidden. *)
Theorem bulk_toggle_as_single_toggles (tests : Store) (st : PageState) :
  settled st -> hiddenSteps st = ∅ ->
  let steps := stepsInSegments (segments (activeTest tests (activeTestId st))) in
  let untick a (s : Z) := dispatch tests (checkbox_change s false) a in
  let tick a (s : Z) := dispatch tests (checkbox_change s true) a in
  foldl untick st steps = dispatch tests click_uncheck_all st /\
  foldl tick (dispatch tests click_uncheck_all st) steps = st /\
  dispatch tests click_check_all (dispatch tests click_uncheck_all st) = st.
Proof.
  intros Hst Hempty steps untick tick.
  assert (Hun : dispatch tests click_uncheck_all st
                = mkPageState (activeTestId st) (list_to_set steps) (effectDeps st)).
  { unfold dispatch. by rewrite run_effects_id. }
  split; [| split].
  - pose proof (dispatch_checkboxes tests st ((fun s => (s, false)) <$> steps) Hst) as Hfold.
    rewrite foldl_fmap in Hfold. cbn [fst snd] in Hfold. subst untick.
    rewrite Hfold, Hun, toggles_hide_all, Hempty. f_equal. set_solver.
  - pose proof (dispatch_checkboxes tests (dispatch tests click_uncheck_all st)
                  ((fun s => (s, true)) <$> steps) (dispatch_settled _ _ _)) as Hfold.
    rewrite foldl_fmap in Hfold. cbn [fst snd] in Hfold. subst tick.
    rewrite Hfold, Hun, toggles_show_all. cbn [activeTestId hiddenSteps effectDeps].
    destruct st as [i h d]. cbn in *. subst h. f_equal. set_solver.
  - rewrite Hun. unfold dispatch, handle, toggleAllSteps.
    cbn [activeTestId hiddenSteps effectDeps].
    rewrite run_effects_id by exact Hst.
    destruct st as [i h d]. cbn in *. by subst h.
Qed.

Lemma bulk_toggle_as_single_toggles_witness :
  foldl (fun a s => dispatch TESTS (checkbox_change s false) a) (mount TESTS)
    [1; 2; 3; 4; 5; 6; 7; 8]
  = dispatch TESTS click_uncheck_all (mount TESTS).
Proof.
  apply (bulk_toggle_as_single_toggles TESTS (mount TESTS)).
  - apply mount_settled.
  - reflexivity.
Defined.

Lemma showAnyHidden_false (hidden : gset Z) : showAnyHidden hidden = false <-> hidden = ∅.
Proof.
  unfold showAnyHidden. rewrite bool_decide_eq_false. split.
  - intros Hsize. apply leibniz_equiv, size_empty_iff. lia.
  - intros ->. rewrite size_empty. lia.
Qed.

Lemma Page_status (tests : Store) (st : PageState) (v : PageView) :
  Page tests st = Ok v ->
  status v = if showAnyHidden (hiddenSteps st) then "Some hidden" else "All visible".
Proof.
  unfold Page. destruct render_letters as [ls | m]; [| done]. cbn [mbind result_bind].
  destruct (render_path _ _) as [cs | m]; [| done]. by intros [= <-].
Qed.

Lemma uncheck_all_status (tests : Store) (st : PageState) (v : PageView) :
  settled st ->
  Page tests (dispatch tests click_uncheck_all st) = Ok v ->
  (status v = "Some hidden" <-> segments (activeTest tests (activeTestId st)) <> []).
Proof.
  intros Hst Hv. rewrite (Page_status _ _ _ Hv), uncheck_all_hidden by done.
  destruct (showAnyHidden _) eqn:Hany.
  - split; [| done]. intros _ Hnil. rewrite Hnil in Hany. done.
  - split; [done |]. intros Hne. exfalso.
    apply showAnyHidden_false in Hany.
    destruct (segments (activeTest tests (activeTestId st))) as [| a segs]; [done |].
    assert (seg_step a ∈ (∅ : gset Z)) as Hin; [| by apply not_elem_of_empty in Hin].
    rewrite <- Hany, elem_of_list_to_set, elem_of_stepsInSegments.
    exists a. split; [apply elem_of_cons; by left | done].
Qed.

(** X9: the status line of a rendered page reads "All visible" exactly when
    every step is visible, and "Some hidden" otherwise; after "Uncheck all"
    it reads "Some hidden" exactly when the active test has a segment. *)
Theorem status_line (tests : Store) (st : PageState) (v : PageView) :
  Page tests st = Ok v ->
  (status v = "All visible" <-> forall s, isStepVisible (hiddenSteps st) s = true) /\
  (status v = "Some hidden" <-> exists s, isStepVisible (hiddenSteps st) s = false) /\
  (settled st ->
   forall v', Page tests (dispatch tests click_uncheck_all st) = Ok v' ->
     (status v' = "Some hidden" <-> segments (activeTest tests (activeTestId st)) <> [])).
Proof.
  intros Hv. rewrite (Page_status _ _ _ Hv).
  split; [| split]; [| | intros Hst v' Hv'; by apply uncheck_all_status].
  - destruct (showAnyHidden (hiddenSteps st)) eqn:Hany.
    + split; [done |]. intros Hall. exfalso.
      assert (hiddenSteps st <> ∅) as Hne.
      { intros He. apply showAnyHidden_false in He. congruence. }
      apply set_choose_L in Hne as [s Hs].
      specialize (Hall s). by apply isStepVisible_true in Hall.
    + apply showAnyHidden_false in Hany. split; [| done].
      intros _ s. apply isStepVisible_true. rewrite Hany. apply not_elem_of_empty.
  - destruct (showAnyHidden (hiddenSteps st)) eqn:Hany.
    + split; [| done]. intros _.
      assert (hiddenSteps st <> ∅) as Hne.
      { intros He. apply showAnyHidden_false in He. congruence. }
      apply set_choose_L in Hne as [s Hs]. exists s. by apply isStepVisible_false.
    + apply showAnyHidden_false in Hany. split; [done |].
      intros [s Hs]. apply isStepVisible_false in Hs.
      rewrite Hany in Hs. by apply not_elem_of_empty in Hs.
Qed.

Lemma status_line_witness :
  exists v, Page TESTS (mount TESTS) = Ok v /\
    (status v = "All visible" <-> forall s, isStepVisible (hiddenSteps (mount TESTS)) s = true).
Proof.
  destruct (Page TESTS (mount TESTS)) as [v | m] eqn:Hv; [| vm_compute in Hv; discriminate].
  exists v. split; [reflexivity |].
  apply (status_line TESTS (mount TESTS) v Hv).
Defined.

(** ** States the page can reach *)

Lemma store_get_is_Some (tests : Store) (k : string) :
  k ∈ testIds tests -> is_Some (store_get tests k).
Proof.
  unfold testIds, Object_keys. induction tests as [| [k' t] tests IH]; cbn [fmap list_fmap fst].
  - intros Hk. by apply elem_of_nil in Hk.
  - intros Hk. cbn [store_get]. destruct (decide (k' = k)) as [-> | Hne]; [by eexists |].
    apply IH. apply elem_of_cons in Hk as [-> | Hk]; done.
Qed.

Lemma activeTest_known (tests : Store) (k : string) :
  k ∈ testIds tests ->
  (exists t, store_get tests k = Some t /\ activeTest tests k = js_own t) /\
  is_Some (store_get tests k).
Proof.
  intros Hk. destruct (store_get_is_Some tests k Hk) as [t Ht].
  split; [| by eexists]. exists t. split; [done | by apply activeTest_own].
Qed.

Lemma defaultTestId_known (tests : Store) :
  tests <> [] -> defaultTestId tests ∈ testIds tests.
Proof.
  destruct tests as [| [k t] tests]; [done |]. intros _.
  unfold defaultTestId, testIds, Object_keys. cbn. apply elem_of_cons. by left.
Qed.

(** X10: in every state reached from the mounted page through the events
    the page offers, no effect is pending; when the store is not empty the
    active id is one of the store and the active test is the own entry of
    that id, so neither the fallback to the first test nor an inherited
    member is ever taken; and every hidden step is a step of a row or of a
    segment of the active test. *)
Theorem reachable_invariant (tests : Store) (st : PageState) :
  reachable tests st ->
  settled st /\
  (tests <> [] ->
   activeTestId st ∈ testIds tests /\
   (exists t, store_get tests (activeTestId st) = Some t /\
      activeTest tests (activeTestId st) = js_own t) /\
   is_Some (store_get tests (activeTestId st))) /\
  (forall s, s ∈ hiddenSteps st ->
     s ∈ step <$> stepRows (activeTest tests (activeTestId st)) \/
     s ∈ seg_step <$> segments (activeTest tests (activeTestId st))).
Proof.
  assert (Hknown : forall st0, (tests <> [] -> activeTestId st0 ∈ testIds tests) ->
            tests <> [] ->
            activeTestId st0 ∈ testIds tests /\
            (exists t, store_get tests (activeTestId st0) = Some t /\
               activeTest tests (activeTestId st0) = js_own t) /\
            is_Some (store_get tests (activeTestId st0))).
  { intros st0 Hin Hne. split; [by apply Hin |]. by apply activeTest_known, Hin. }
  induction 1 as [| st ev _ (Hst & Hid & Hhid) Hoff].
  - split; [apply mount_settled |]. split.
    + apply Hknown. intros Hne. by apply defaultTestId_known.
    + intros s Hs. by apply not_elem_of_empty in Hs.
  - split; [apply dispatch_settled |].
    destruct ev as [value | s on | | |]; unfold dispatch, handle.
    + unfold run_effects. cbn [activeTestId hiddenSteps effectDeps].
      case_bool_decide as Hdeps; cbn [activeTestId hiddenSteps effectDeps].
      * assert (value = activeTestId st) as -> by (unfold settled in Hst; congruence).
        split; [exact Hid | exact Hhid].
      * split; [apply (Hknown (mkPageState value ∅ (Some value))); by intros _ |].
        intros s Hs. by apply not_elem_of_empty in Hs.
    + rewrite run_effects_id by exact Hst. cbn [activeTestId hiddenSteps].
      split; [exact Hid |]. intros u Hu.
      apply elem_of_toggleStep in Hu. cbn [offered] in Hoff.
      destruct on; [by apply Hhid, Hu |].
      destruct Hu as [-> | Hu]; [by left | by apply Hhid].
    + rewrite run_effects_id by exact Hst. cbn [activeTestId hiddenSteps].
      split; [exact Hid |]. intros u Hu. by apply not_elem_of_empty in Hu.
    + rewrite run_effects_id by exact Hst. cbn [activeTestId hiddenSteps].
      split; [exact Hid |]. intros u Hu. right.
      unfold toggleAllSteps in Hu.
      rewrite elem_of_list_to_set, elem_of_stepsInSegments in Hu.
      destruct Hu as (seg & Hseg & <-). by apply list_elem_of_fmap_2.
    + rewrite run_effects_id by exact Hst. split; [exact Hid | exact Hhid].
Qed.

Lemma reachable_invariant_witness :
  let st := dispatch TESTS (checkbox_change 9 false)
              (dispatch TESTS (select_change "introA") (mount TESTS)) in
  settled st /\ activeTestId st ∈ testIds TESTS.
Proof.
  assert (Hreach : reachable TESTS
            (dispatch TESTS (checkbox_change 9 false)
               (dispatch TESTS (select_change "introA") (mount TESTS)))).
  { apply reachable_dispatch; [apply reachable_dispatch; [apply reachable_mount |] |].
    - apply elem_of_cons. left. reflexivity.
    - vm_compute. do 11 (apply elem_of_cons; right). apply elem_of_cons. left. reflexivity. }
  destruct (reachable_invariant TESTS _ Hreach) as (Hst & Hid & _).
  split; [exact Hst |]. apply Hid. discriminate.
Defined.

Lemma render_path_nothing_hidden (segs : list Segment) :
  render_path ∅ segs = mapM DrawSegment segs.
Proof.
  induction segs as [| a segs IH]; [done |].
  rewrite render_path_cons, mapM_DrawSegment_cons, IH.
  assert (isStepVisible ∅ (seg_step a) = true) as ->; [| done].
  apply isStepVisible_true, not_elem_of_empty.
Qed.

(** X11: after "Check all" nothing is hidden, the active test is unchanged
    and every segment of the active test is handed to [DrawSegment], in list
    order; the same holds when the page is mounted. *)
Theorem check_all_draws_every_segment (tests : Store) (st : PageState) :
  settled st ->
  let st' := dispatch tests click_check_all st in
  let segs := segments (activeTest tests (activeTestId st)) in
  activeTestId st' = activeTestId st /\ hiddenSteps st' = ∅ /\
  (forall s, isStepVisible (hiddenSteps st') s = true) /\
  path <$> Page tests st' = (render_letters ≫= fun _ => mapM DrawSegment segs) /\
  path <$> Page tests (mount tests)
  = (render_letters ≫= fun _ =>
       mapM DrawSegment (segments (activeTest tests (defaultTestId tests)))).
Proof.
  intros Hst st' segs.
  assert (Hst' : st' = mkPageState (activeTestId st) ∅ (effectDeps st)).
  { subst st'. unfold dispatch. by rewrite run_effects_id. }
  assert (Hpath : forall st0, hiddenSteps st0 = ∅ ->
            path <$> Page tests st0
            = (render_letters ≫= fun _ =>
                 mapM DrawSegment (segments (activeTest tests (activeTestId st0))))).
  { intros st0 He. unfold Page. rewrite He, render_path_nothing_hidden.
    destruct render_letters as [ls | m]; [| done]. cbn [mbind result_bind].
    by destruct (mapM DrawSegment _). }
  rewrite Hst'. cbn [activeTestId hiddenSteps].
  split; [done |]. split; [done |]. split.
  - intros s. apply isStepVisible_true, not_elem_of_empty.
  - split; [by apply Hpath | by apply Hpath].
Qed.

Lemma check_all_draws_every_segment_witness :
  hiddenSteps (dispatch TESTS click_check_all
                 (dispatch TESTS click_uncheck_all (mount TESTS))) = ∅.
Proof.
  apply (check_all_draws_every_segment TESTS
           (dispatch TESTS click_uncheck_all (mount TESTS))).
  apply dispatch_settled.
Defined.

(** ** Layout of the steps table *)

Lemma sum_list_group_sizes (gs : list Group) :
  sum_list ((fun g => length (g_rows g)) <$> gs) = length (mjoin (g_rows <$> gs)).
Proof.
  induction gs as [| g gs IH]; [done |].
  change (sum_list ((fun g => length (g_rows g)) <$> g :: gs))
    with (length (g_rows g) + sum_list ((fun g => length (g_rows g)) <$> gs))%nat.
  change (mjoin (g_rows <$> g :: gs)) with (g_rows g ++ mjoin (g_rows <$> gs)).
  by rewrite length_app, IH.
Qed.

(** X12: the table body is laid out group by group.  The first row of a
    group carries the checkbox cell, whose [rowSpan] is the size of the
    group, and the following [rowSpan - 1] rows carry none; the text cells
    are those of the rows of the groups in order; the row spans add up to the
    number of rows. *)
Theorem StepsTable4Col_layout (rows : list StepRow) (vis : Z -> bool) :
  step_cell <$> StepsTable4Col rows vis
  = mjoin ((fun g =>
              Some (mkCheckbox (vis (g_step g)) (g_step g) (length (g_rows g)))
              :: replicate (length (g_rows g) - 1) None)
           <$> groupByStep rows) /\
  (fun tr => (where_cell tr, directive_cell tr, ideas_cell tr)) <$> StepsTable4Col rows vis
  = (fun r => (where_ r, directive r, default "" (ideas r)))
      <$> mjoin (g_rows <$> groupByStep rows) /\
  sum_list (rowSpan <$> omap step_cell (StepsTable4Col rows vis)) = length rows.
Proof.
  split; [| split].
  - unfold StepsTable4Col.
    assert (Hne : Forall (fun g => g_rows g <> []) (groupByStep rows)).
    { apply Forall_forall. intros g. apply groupByStep_rows_nonempty. }
    induction Hne as [| g gs Hg _ IH]; [done |].
    cbn [flat_map fmap list_fmap mjoin list_join]. rewrite fmap_app. f_equal; [| exact IH].
    destruct (g_rows g) as [| r0 rest]; [done |].
    rewrite imap_cons. cbn [fmap list_fmap step_cell].
    rewrite bool_decide_eq_true_2 by done. f_equal.
    replace (length (r0 :: rest) - 1)%nat with (length rest) by (cbn [length]; lia).
    by apply fmap_imap_const.
  - apply StepsTable4Col_text_cells.
  - rewrite StepsTable4Col_checkboxes, <- list_fmap_compose.
    rewrite <- (Permutation_length (groupByStep_rows_Permutation rows)).
    apply sum_list_group_sizes.
Qed.

Lemma NoDup_group_keys (gs : list Group) :
  NoDup (g_step <$> gs) ->
  NoDup (flat_map (fun g => (fun i => (g_step g, i)) <$> seq 0 (length (g_rows g))) gs).
Proof.
  induction gs as [| g gs IH]; cbn [fmap list_fmap flat_map]; [constructor |].
  intros [Hg Hgs]%NoDup_cons. apply NoDup_app. split; [| split; [| by apply IH]].
  - apply NoDup_fmap_2; [| apply NoDup_seq]. by intros i j [= ->].
  - intros [s i] Hin Hin'.
    apply list_elem_of_fmap in Hin as (j & [= -> ->] & _).
    apply Hg. rewrite list_elem_of_In, in_flat_map in Hin'.
    destruct Hin' as (g' & Hg' & Hin').
    apply list_elem_of_In in Hg'. apply list_elem_of_In in Hin'.
    apply list_elem_of_fmap in Hin' as (j' & [= Hs _] & _).
    rewrite Hs. by apply list_elem_of_fmap_2.
Qed.

Lemma groupByStep_steps (rows : list StepRow) :
  g_step <$> groupByStep rows = firstSeen (step <$> rows).
Proof. rewrite groupByStep_spec, <- list_fmap_compose. apply list_fmap_id. Qed.

(** X13: the React keys of the table rows, built from the step of the group
    and the index of the row in the group, are pairwise distinct. *)
Theorem StepsTable4Col_keys_distinct (rows : list StepRow) (vis : Z -> bool) :
  NoDup (key <$> StepsTable4Col rows vis).
Proof.
  unfold StepsTable4Col.
  rewrite (table_keys (groupByStep rows)
             (fun g idx r =>
                mkTableRow (g_step g, idx)
                  (if bool_decide (idx = 0%nat)
                   then Some (mkCheckbox (vis (g_step g)) (g_step g) (length (g_rows g)))
                   else None)
                  (where_ r) (directive r) (default "" (ideas r)))) by done.
  apply NoDup_group_keys. rewrite groupByStep_steps. apply firstSeen_NoDup.
Qed.

Lemma filter_filter_same {A} (P : A -> Prop) `{!forall a, Decision (P a)} (l : list A) :
  filter P (filter P l) = filter P l.
Proof. apply filter_all. intros a Ha. by apply list_elem_of_filter in Ha as [? _]. Qed.

Lemma join_groups_contiguous (rows : list StepRow) :
  contiguous (step <$> rows) ->
  mjoin ((fun s => filter (fun r => step r = s) rows) <$> firstSeen (step <$> rows)) = rows.
Proof.
  induction rows as [| r rest IH]; [done |].
  cbn [fmap list_fmap contiguous firstSeen mjoin list_join]. intros [Hnext Hcont].
  specialize (IH Hcont).
  rewrite filter_cons, decide_True by done. cbn [app]. f_equal.
  assert (Hother : forall l : list Z,
            (fun s => filter (fun r' => step r' = s) (r :: rest))
              <$> filter (fun b => b <> step r) l
            = (fun s => filter (fun r' => step r' = s) rest)
              <$> filter (fun b => b <> step r) l).
  { intros l. apply list_fmap_ext. intros i s Hs.
    apply list_elem_of_lookup_2, list_elem_of_filter in Hs as [Hs _].
    rewrite filter_cons. destruct (decide (step r = s)); [congruence | done]. }
  rewrite Hother.
  destruct (decide (step r ∈ step <$> rest)) as [Hin | Hout].
  - specialize (Hnext Hin). destruct rest as [| r' rest']; [done |].
    cbn [fmap list_fmap head] in Hnext. injection Hnext as Hr'.
    cbn [fmap list_fmap firstSeen] in IH |- *. rewrite Hr' in IH |- *.
    rewrite (filter_cons (fun b => b <> step r) (step r)).
    destruct (decide (step r <> step r)) as [Hn | _]; [done |].
    rewrite filter_filter_same. exact IH.
  - rewrite (filter_none (fun r' => step r' = step r)).
    + rewrite filter_all; [exact IH |].
      intros s Hs Heq. apply Hout. rewrite <- Heq. by apply elem_of_firstSeen.
    + intros r' Hr' Heq. apply Hout. rewrite <- Heq. by apply list_elem_of_fmap_2.
Qed.

(** X14: when the rows of every step are adjacent in the row list (as in a
    list authored in step order), grouping keeps the rows in their listed
    order, and so does the table. *)
Theorem groupByStep_keeps_contiguous_order (rows : list StepRow) (vis : Z -> bool) :
  contiguous (step <$> rows) ->
  mjoin (g_rows <$> groupByStep rows) = rows /\
  (fun tr => (where_cell tr, directive_cell tr, ideas_cell tr)) <$> StepsTable4Col rows vis
  = (fun r => (where_ r, directive r, default "" (ideas r))) <$> rows.
Proof.
  intros Hcont.
  assert (Hjoin : mjoin (g_rows <$> groupByStep rows) = rows).
  { rewrite groupByStep_spec, <- list_fmap_compose. by apply join_groups_contiguous. }
  split; [exact Hjoin |].
  by rewrite StepsTable4Col_text_cells, Hjoin.
Qed.

Lemma groupByStep_keeps_contiguous_order_witness :
  mjoin (g_rows <$> groupByStep introA_rows) = introA_rows.
Proof.
  apply (groupByStep_keeps_contiguous_order introA_rows (fun _ => true)).
  vm_compute. repeat split; intros Hin; try reflexivity;
    repeat (apply elem_of_cons in Hin as [Hin | Hin]; [discriminate |]);
    by apply elem_of_nil in Hin.
Defined.

(** ** More on the page state and its view *)

Lemma segment_steps_set (segs : list Segment) :
  foldl (fun set seg => set ∪ {[seg_step seg]}) (∅ : gset Z) segs
  = list_to_set (seg_step <$> segs).
Proof.
  apply set_eq. intros s.
  rewrite elem_of_segment_steps, elem_of_list_to_set, list_elem_of_fmap.
  split.
  - intros [He | (seg & Hseg & <-)]; [by apply not_elem_of_empty in He |]. by exists seg.
  - intros (seg & -> & Hseg). right. by exists seg.
Qed.

(** X15: [stepsInSegments] lists every step number that occurs in a segment
    exactly once, in ascending order; the result does not depend on the order
    of the segments and is empty for a test without segments. *)
Theorem stepsInSegments_sorted_distinct (segs : list Segment) :
  Sorted Z.le (stepsInSegments segs) /\
  NoDup (stepsInSegments segs) /\
  (forall s, s ∈ stepsInSegments segs <-> exists seg, seg ∈ segs /\ seg_step seg = s) /\
  (forall segs', segs' ≡ₚ segs -> stepsInSegments segs' = stepsInSegments segs) /\
  stepsInSegments [] = [].
Proof.
  split; [apply stepsInSegments_ascending |].
  split; [apply stepsInSegments_ascending |].
  split; [apply elem_of_stepsInSegments |].
  split; [| reflexivity].
  intros segs' Hperm. unfold stepsInSegments. rewrite !segment_steps_set.
  f_equal. f_equal. apply set_eq. intros s.
  by rewrite !elem_of_list_to_set, Hperm.
Qed.

Lemma stepsInSegments_sorted_distinct_witness :
  stepsInSegments (reverse introA_segments ++ [circle 3 "E" dir_left])
  = stepsInSegments (circle 3 "E" dir_left :: introA_segments).
Proof.
  apply (stepsInSegments_sorted_distinct (circle 3 "E" dir_left :: introA_segments)).
  rewrite <- Permutation_cons_append. apply Permutation_skip, reverse_Permutation.
Defined.

(** X16: selecting the id that is already active changes nothing, the hidden
    set included; the hidden set is emptied only by a selection that changes
    the id. *)
Theorem reselecting_active_test_keeps_state (tests : Store) (st : PageState) :
  settled st ->
  dispatch tests (select_change (activeTestId st)) st = st /\
  (forall value, hiddenSteps st <> ∅ ->
     hiddenSteps (dispatch tests (select_change value) st) = ∅ <-> value <> activeTestId st).
Proof.
  intros Hst. unfold dispatch, handle, run_effects. cbn [activeTestId hiddenSteps effectDeps].
  split.
  - rewrite bool_decide_eq_true_2 by exact Hst. by destruct st.
  - intros value Hne. unfold settled in Hst. case_bool_decide as Hdeps;
      cbn [hiddenSteps]; split; try done; intros Hv; congruence.
Qed.

Lemma reselecting_active_test_keeps_state_witness :
  let st := dispatch TESTS (checkbox_change 3 false) (mount TESTS) in
  dispatch TESTS (select_change "introA") st = st.
Proof.
  apply (reselecting_active_test_keeps_state TESTS
           (dispatch TESTS (checkbox_change 3 false) (mount TESTS))).
  apply dispatch_settled.
Defined.

Lemma store_get_NoDup (tests : Store) (k : string) (t : TestDef) :
  NoDup (testIds tests) -> (k, t) ∈ tests -> store_get tests k = Some t.
Proof.
  unfold testIds, Object_keys.
  induction tests as [| [k' t'] tests IH]; cbn [fmap list_fmap fst].
  - intros _ Hin. by apply elem_of_nil in Hin.
  - intros [Hk' Hnd]%NoDup_cons Hin. cbn [store_get].
    apply elem_of_cons in Hin as [[= -> ->] | Hin]; [by rewrite decide_True |].
    rewrite decide_False; [by apply IH |].
    intros ->. apply Hk'. by apply (list_elem_of_fmap_2 fst _ (k, t)).
Qed.

(** X17: when the ids of the store are distinct, the selection control of a
    rendered page lists the tests of the store in order, each id with the
    name of its test, and the subtitle is the name of the selected test. *)
Theorem Page_selection_control (tests : Store) (st : PageState) (v : PageView) :
  NoDup (testIds tests) ->
  Page tests st = Ok v ->
  select_value v = activeTestId st /\
  select_options v = (fun kt => (kt.1, t_name kt.2)) <$> tests /\
  (forall t, (activeTestId st, t) ∈ tests -> subtitle v = t_name t).
Proof.
  intros Hnd. unfold Page.
  destruct render_letters as [ls | m]; [| done]. cbn [mbind result_bind].
  destruct (render_path _ _) as [cs | m]; [| done]. intros [= <-].
  cbn [select_value select_options subtitle].
  split; [done |]. split.
  - unfold testIds, Object_keys. rewrite <- list_fmap_compose.
    apply list_fmap_ext. intros i [k t] Hkt. cbn.
    apply list_elem_of_lookup_2 in Hkt.
    by rewrite (tests_property_own _ _ _ (store_get_NoDup _ _ _ Hnd Hkt)).
  - intros t Ht. by rewrite (activeTest_own _ _ _ (store_get_NoDup _ _ _ Hnd Ht)).
Qed.

Lemma Page_selection_control_witness :
  exists v, Page TESTS (mount TESTS) = Ok v /\
    select_options v = [("introA", "USDF 2023 Introductory Level, Test A (20m x 40m)")].
Proof.
  destruct (Page TESTS (mount TESTS)) as [v | m] eqn:Hv; [| vm_compute in Hv; discriminate].
  exists v. split; [reflexivity |].
  apply (Page_selection_control TESTS (mount TESTS) v); [| exact Hv].
  apply NoDup_singleton.
Defined.

Lemma render_path_lookup (hidden : gset Z) (segs : list Segment)
    (cs : list (option Svg)) (i : nat) (seg : Segment) :
  render_path hidden segs = Ok cs -> segs !! i = Some seg ->
  exists c, cs !! i = Some c /\
    if isStepVisible hidden (seg_step seg) then DrawSegment seg = Ok c else c = None.
Proof.
  revert cs i. induction segs as [| a segs IH]; intros cs i; [done |].
  rewrite render_path_cons.
  destruct (if isStepVisible hidden (seg_step a) then DrawSegment a else Ok None)
    as [c | m] eqn:Ha; [| done].
  destruct (render_path hidden segs) as [cs' | m]; [| done].
  intros [= <-]. destruct i as [| i]; cbn [lookup list_lookup].
  - intros [= <-]. exists c. split; [done |].
    destruct (isStepVisible hidden (seg_step a)); [done | congruence].
  - by apply IH.
Qed.

Lemma Page_inv (tests : Store) (st : PageState) (v : PageView) :
  Page tests st = Ok v ->
  render_path (hiddenSteps st) (segments (activeTest tests (activeTestId st))) = Ok (path v) /\
  table v = StepsTable4Col (stepRows (activeTest tests (activeTestId st)))
              (isStepVisible (hiddenSteps st)).
Proof.
  unfold Page. destruct render_letters as [ls | m]; [| done]. cbn [mbind result_bind].
  destruct (render_path _ _) as [cs | m]; [| done]. by intros [= <-].
Qed.

Lemma render_path_length (hidden : gset Z) (segs : list Segment) (cs : list (option Svg)) :
  render_path hidden segs = Ok cs -> length cs = length segs.
Proof.
  revert cs. induction segs as [| a segs IH]; intros cs; [by intros [= <-] |].
  rewrite render_path_cons.
  destruct (if isStepVisible _ _ then _ else _) as [c | m]; [| done].
  destruct (render_path hidden segs) as [cs' | m]; [| done].
  intros [= <-]. cbn [length]. f_equal. by apply IH.
Qed.

(** X18: table and drawing agree.  In a rendered page every checkbox is
    checked exactly when its step is visible; the path group has one child
    per segment of the active test, and the child of a segment whose step is
    hidden is [null], while the child of a visible segment is what
    [DrawSegment] returns for it. *)
Theorem Page_checkboxes_match_drawing (tests : Store) (st : PageState) (v : PageView) :
  Page tests st = Ok v ->
  let segs := segments (activeTest tests (activeTestId st)) in
  Forall (fun cb => checked cb = isStepVisible (hiddenSteps st) (cb_step cb))
    (omap step_cell (table v)) /\
  length (path v) = length segs /\
  (forall i seg, segs !! i = Some seg ->
     exists c, path v !! i = Some c /\
       if isStepVisible (hiddenSteps st) (seg_step seg)
       then DrawSegment seg = Ok c else c = None).
Proof.
  intros Hv segs. destruct (Page_inv _ _ _ Hv) as [Hpath Htable].
  split; [| split].
  - rewrite Htable, StepsTable4Col_checkboxes. apply Forall_fmap, Forall_forall.
    by intros g _.
  - by apply (render_path_length (hiddenSteps st)).
  - intros i seg Hseg. by apply (render_path_lookup _ _ _ _ _ Hpath).
Qed.

Lemma Page_checkboxes_match_drawing_witness :
  exists v, Page TESTS (dispatch TESTS (checkbox_change 3 false) (mount TESTS)) = Ok v /\
    length (path v) = 8%nat.
Proof.
  destruct (Page TESTS (dispatch TESTS (checkbox_change 3 false) (mount TESTS)))
    as [v | m] eqn:Hv; [| vm_compute in Hv; discriminate].
  exists v. split; [reflexivity |].
  apply (Page_checkboxes_match_drawing TESTS _ v Hv).
Defined.

(** * The first page *)

Lemma letterCoords_lookup_entries (i : string) (p : Point) :
  Horizontal.letterCoords !! i = Some p -> (i, p) ∈ Horizontal.letterCoords_entries.
Proof. unfold Horizontal.letterCoords. apply elem_of_list_to_map_2. Qed.

Lemma letter_at_own (i : string) (p : Point) :
  Horizontal.letterCoords !! i = Some p -> letter_at i = js_own p.
Proof. unfold letter_at. by intros ->. Qed.

Lemma letter_at_inherited (i : string) :
  Horizontal.letterCoords !! i = None -> letter_at i <> js_undefined ->
  letter_at i = js_inherited i.
Proof. unfold letter_at, js_property. intros ->. by case_bool_decide. Qed.

Lemma horizontal_pts_cons (a : string) (ids : list string) :
  Horizontal.pts (a :: ids)
  = if negb (js_truthy (letter_at a)) then Throw ("Unknown letter " +:+ a)
    else ps ← Horizontal.pts ids;
         Ok ((prop_x (letter_at a), prop_y (letter_at a)) :: ps).
Proof.
  unfold Horizontal.pts, letter_at. cbn [mapM].
  by destruct (negb (js_truthy (js_property (Horizontal.letterCoords !! a) a))).
Qed.

Lemma horizontal_pts_throws_iff (ids : list string) :
  throws (Horizontal.pts ids) <-> exists i, i ∈ ids /\ letter_at i = js_undefined.
Proof.
  induction ids as [| a ids IH].
  - split; [by intros [m Hm] |]. intros (i & Hi & _). by apply elem_of_nil in Hi.
  - rewrite horizontal_pts_cons.
    destruct (js_truthy (letter_at a)) eqn:Ha; cbn [negb].
    + destruct (Horizontal.pts ids) as [ps | m] eqn:Hrest.
      * split; [by intros [m Hm] |]. intros (i & Hi & Hgi).
        apply elem_of_cons in Hi as [-> | Hi]; [by rewrite Hgi in Ha |].
        destruct (proj2 IH) as [m Hm]; [by exists i | done].
      * split; [| by eexists]. intros _.
        destruct (proj1 IH) as (i & Hi & Hgi); [by eexists |].
        exists i. split; [by apply elem_of_cons; right | done].
    + apply js_truthy_false in Ha. split; [| by eexists].
      intros _. exists a. split; [apply elem_of_cons; by left | done].
Qed.

Lemma horizontal_truthy_filter (wps : list string) :
  filter (fun s => Horizontal.truthy s = true) wps = filter (fun s => s <> "") wps.
Proof.
  apply list_filter_iff. intros s. unfold Horizontal.truthy.
  by rewrite negb_true_iff, bool_decide_eq_false.
Qed.

(** X19: in the first page a line segment ignores empty waypoint strings:
    it is drawn like the segment without them, and drawing throws exactly
    when the lookup of a non-empty waypoint in [letterCoords] is [undefined],
    that is, when the waypoint is neither a letter of the table nor the name
    of a member inherited from [Object.prototype]. *)
Theorem horizontal_line_ignores_empty_waypoints (wps : list string) (lbl : option string) :
  Horizontal.DrawSegment (Horizontal.LineSeg wps lbl)
  = Horizontal.DrawSegment (Horizontal.LineSeg (filter (fun s => s <> "") wps) lbl) /\
  (throws (Horizontal.DrawSegment (Horizontal.LineSeg wps lbl)) <->
   exists i, i ∈ wps /\ i <> "" /\ letter_at i = js_undefined) /\
  (forall i, letter_at i = js_undefined <->
     Horizontal.letterCoords !! i = None /\ i ∉ Object_prototype_members).
Proof.
  pose proof (horizontal_truthy_filter wps) as Hfilter.
  split; [| split].
  - cbn [Horizontal.DrawSegment]. rewrite !Hfilter.
    assert (filter (fun s => Horizontal.truthy s = true) (filter (fun s => s <> "") wps)
            = filter (fun s => s <> "") wps) as ->; [| done].
    rewrite <- Hfilter. apply filter_filter_same.
  - cbn [Horizontal.DrawSegment]. rewrite Hfilter.
    assert (Hpts : throws (Horizontal.pts (filter (fun s => s <> "") wps)) <->
                   exists i, i ∈ wps /\ i <> "" /\ letter_at i = js_undefined).
    { rewrite horizontal_pts_throws_iff. split.
      - intros (i & Hi & Hgi). apply list_elem_of_filter in Hi as [Hne Hi]. by exists i.
      - intros (i & Hi & Hne & Hgi). exists i. split; [by apply list_elem_of_filter | done]. }
    rewrite <- Hpts. destruct (Horizontal.pts _) as [ps | m].
    + split; by intros [m Hm].
    + split; intros _; by eexists.
  - intros i. apply js_property_undefined_iff.
Qed.

(** X20: in the first page the label of a line segment is never dropped:
    when the segment is drawn and its label is not empty, the label is put at
    the last non-empty waypoint, or at X when there is none, with the
    coordinates read from the lookup of that letter.  A circle segment whose
    letter has an [undefined] lookup is drawn as nothing at all, label
    included, without an error; for the name of an inherited member the
    circle and the label are emitted without coordinates. *)
Theorem horizontal_labels (wps : list string) (l : string)
    (children : list (option Horizontal.Elem)) :
  (Horizontal.DrawSegment (Horizontal.LineSeg wps (Some l)) = Ok children -> l <> "" ->
   exists points near,
     near = default "X" (last (filter (fun s => s <> "") wps)) /\
     letter_at near <> js_undefined /\
     children = [Some (Horizontal.el_polyline points);
                 Some (Horizontal.el_text (prop_x (letter_at near))
                         (prop_y (letter_at near)) l)]) /\
  (forall i p, Horizontal.letterCoords !! i = Some p ->
     prop_x (letter_at i) = Some (x p) /\ prop_y (letter_at i) = Some (y p)) /\
  (forall at_ d,
     letter_at at_ = js_undefined ->
     Horizontal.DrawSegment (Horizontal.CircleSeg at_ d (Some l)) = Ok [None; None]) /\
  (forall at_ d,
     Horizontal.letterCoords !! at_ = None -> letter_at at_ <> js_undefined -> l <> "" ->
     Horizontal.DrawSegment (Horizontal.CircleSeg at_ d (Some l))
     = Ok [Some (Horizontal.el_circle None None 50); Some (Horizontal.el_text None None l)]).
Proof.
  split; [| split; [| split]].
  - intros Hdraw Hl. cbn [Horizontal.DrawSegment] in Hdraw.
    rewrite horizontal_truthy_filter in Hdraw.
    destruct (Horizontal.pts _) as [ps | m] eqn:Hpts; [| done].
    injection Hdraw as <-.
    set (near := default "X" (last (filter (fun s => s <> "") wps))).
    assert (Hknown : js_truthy (letter_at near) = true).
    { subst near.
      destruct (last (filter (fun s => s <> "") wps)) as [a |] eqn:Hlast; [| done].
      cbn [default]. destruct (js_truthy (letter_at a)) eqn:Ha; [done |].
      apply js_truthy_false in Ha.
      assert (throws (Horizontal.pts (filter (fun s => s <> "") wps))) as [m Hm];
        [| congruence].
      apply horizontal_pts_throws_iff. exists a. split; [| done].
      apply last_Some in Hlast as [l' ->]. apply elem_of_app. right.
      by apply list_elem_of_singleton. }
    exists ps, near. split; [reflexivity |]. split; [by apply js_truthy_true |].
    unfold Horizontal.label_child, Horizontal.truthy, Horizontal.SegmentLabel.
    rewrite bool_decide_eq_false_2 by done. cbn [negb].
    fold (letter_at near). by rewrite Hknown.
  - intros i p Hp. by rewrite (letter_at_own _ _ Hp).
  - intros at_ d Hat. cbn [Horizontal.DrawSegment].
    unfold Horizontal.CircleAt, Horizontal.label_child, Horizontal.SegmentLabel.
    fold (letter_at at_). rewrite Hat. by destruct (Horizontal.truthy l).
  - intros at_ d Hnone Hdef Hl. cbn [Horizontal.DrawSegment].
    unfold Horizontal.CircleAt, Horizontal.label_child, Horizontal.SegmentLabel,
      Horizontal.truthy.
    fold (letter_at at_). rewrite (letter_at_inherited _ Hnone Hdef).
    by rewrite bool_decide_eq_false_2 by done.
Qed.

Lemma horizontal_labels_witness :
  (exists children points near,
     Horizontal.DrawSegment (Horizontal.LineSeg ["K"; ""; "M"; ""] (Some "Change rein"))
     = Ok children /\
     near = "M" /\ letter_at near <> js_undefined /\
     children = [Some (Horizontal.el_polyline points);
                 Some (Horizontal.el_text (prop_x (letter_at near))
                         (prop_y (letter_at near)) "Change rein")]) /\
  Horizontal.DrawSegment (Horizontal.CircleSeg "Z" dir_left (Some "Change rein"))
  = Ok [None; None] /\
  Horizontal.DrawSegment (Horizontal.CircleSeg "constructor" dir_left (Some "Change rein"))
  = Ok [Some (Horizontal.el_circle None None 50);
        Some (Horizontal.el_text None None "Change rein")].
Proof.
  split; [| split].
  - destruct (Horizontal.DrawSegment
                (Horizontal.LineSeg ["K"; ""; "M"; ""] (Some "Change rein")))
      as [children | m] eqn:Hdraw; [| vm_compute in Hdraw; discriminate].
    destruct (horizontal_labels ["K"; ""; "M"; ""] "Change rein" children) as [Hline _].
    destruct (Hline Hdraw) as (points & near & Hnear & Hp & Hchildren); [discriminate |].
    exists children, points, near. by repeat split.
  - apply (horizontal_labels [] "Change rein" []). reflexivity.
  - apply (horizontal_labels [] "Change rein" []); [reflexivity | discriminate | discriminate].
Defined.

Lemma anyHidden_true_iff (visible : list bool) :
  Horizontal.anyHidden visible = true <-> exists i, visible !! i = Some false.
Proof.
  unfold Horizontal.anyHidden. rewrite existsb_exists. split.
  - intros (b & Hb & Hneg). apply list_elem_of_In, list_elem_of_lookup in Hb as [i Hi].
    exists i. by destruct b.
  - intros [i Hi]. exists false. split; [| done].
    apply list_elem_of_In. by apply list_elem_of_lookup_2 in Hi.
Qed.

Lemma horizontal_handle_length (ev : Horizontal.Event) (visible : list bool) :
  length visible = length Horizontal.introA_20x40 ->
  length (Horizontal.handle ev visible) = length Horizontal.introA_20x40.
Proof.
  intros Hlen. destruct ev as [| | i b |]; cbn [Horizontal.handle].
  - reflexivity.
  - reflexivity.
  - unfold Horizontal.set_visible. by rewrite length_insert.
  - exact Hlen.
Qed.

Lemma horizontal_run_length (evs : list Horizontal.Event) :
  length (horizontal_run evs) = length Horizontal.introA_20x40.
Proof.
  unfold horizontal_run. induction evs as [| ev evs IH] using rev_ind.
  - reflexivity.
  - rewrite foldl_snoc. by apply horizontal_handle_length.
Qed.

(** X21: in the first page, after any sequence of offered events there is
    exactly one visibility flag per segment, so every checkbox reads a
    defined flag; a ticked or unticked box changes the flag of its own
    segment only; and the header reads "Some hidden" exactly when some flag
    is false. *)
Theorem horizontal_visible_flags (evs : list Horizontal.Event) :
  Forall horizontal_offered evs ->
  let visible := horizontal_run evs in
  length visible = length Horizontal.introA_20x40 /\
  Horizontal.render_checkboxes visible = Some <$> visible /\
  (Horizontal.anyHidden visible = true <-> exists i, visible !! i = Some false) /\
  (forall i b, (i < length Horizontal.introA_20x40)%nat ->
     let visible' := horizontal_run (evs ++ [Horizontal.checkbox_change i b]) in
     visible' !! i = Some b /\ forall j, j <> i -> visible' !! j = visible !! j) /\
  Horizontal.anyHidden (horizontal_run (evs ++ [Horizontal.click_show_all])) = false /\
  horizontal_run (evs ++ [Horizontal.click_hide_all])
  = replicate (length Horizontal.introA_20x40) false.
Proof.
  intros _ visible.
  assert (Hlen : length visible = length Horizontal.introA_20x40)
    by apply horizontal_run_length.
  split; [exact Hlen |]. split; [| split; [apply anyHidden_true_iff |]].
  - unfold Horizontal.render_checkboxes.
    apply list_eq. intros i. rewrite list_lookup_imap, list_lookup_fmap.
    destruct (Horizontal.introA_20x40 !! i) as [seg |] eqn:Hseg; cbn.
    + apply lookup_lt_Some in Hseg. rewrite <- Hlen in Hseg.
      apply lookup_lt_is_Some in Hseg as [b Hb]. by rewrite Hb.
    + apply lookup_ge_None in Hseg. rewrite <- Hlen in Hseg.
      apply lookup_ge_None in Hseg. by rewrite Hseg.
  - split; [| split].
    + intros i b Hi visible'. subst visible'. unfold horizontal_run.
      rewrite foldl_snoc. fold (horizontal_run evs). fold visible.
      cbn [Horizontal.handle]. unfold Horizontal.set_visible. split.
      * apply list_lookup_insert_eq. by rewrite Hlen.
      * intros j Hj. by apply list_lookup_insert_ne.
    + unfold horizontal_run. rewrite foldl_snoc. reflexivity.
    + unfold horizontal_run. rewrite foldl_snoc. reflexivity.
Qed.

Lemma horizontal_visible_flags_witness :
  horizontal_run [Horizontal.click_hide_all; Horizontal.checkbox_change 2 true] !! 2%nat
  = Some true.
Proof.
  destruct (horizontal_visible_flags [Horizontal.click_hide_all]) as (_ & _ & _ & Hbox & _).
  - repeat constructor.
  - apply (Hbox 2%nat true). vm_compute. lia.
Defined.

Lemma horizontal_render_path_offset (segs : list Horizontal.Segment)
    (visible : list bool) (k : nat) :
  Forall (fun seg => exists g, Horizontal.DrawSegment seg = Ok g) segs ->
  exists children,
    mapM (fun si =>
            if default false (visible !! si.1)
            then g ← Horizontal.DrawSegment si.2; Ok (Some g)
            else Ok None)
         (imap (fun i => pair (k + i)%nat) segs) = Ok children /\
    length children = length segs /\
    forall i seg, segs !! i = Some seg ->
      exists c, children !! i = Some c /\
        if default false (visible !! (k + i)%nat)
        then Horizontal.DrawSegment seg = Ok (default [] c) /\ is_Some c
        else c = None.
Proof.
  intros Hok. revert k. induction Hok as [| a segs [g Hg] _ IH]; intros k.
  - exists []. split; [done |]. split; [done |]. by intros i seg.
  - rewrite imap_cons.
    rewrite (imap_ext _ (fun i => pair (S k + i)%nat) segs)
      by (intros i seg _; cbn; f_equal; lia).
    destruct (IH (S k)) as (cs & Hcs & Hlen & Hlook).
    set (c := if default false (visible !! (k + 0)%nat) then Some g else None).
    exists (c :: cs). split; [| split].
    + cbn [mapM fst snd]. rewrite Hcs. subst c.
      destruct (default false (visible !! (k + 0)%nat)); [by rewrite Hg | done].
    + cbn [length]. by rewrite Hlen.
    + intros [| i] seg; cbn [lookup list_lookup].
      * intros [= <-]. exists c. split; [done |]. subst c.
        destruct (default false (visible !! (k + 0)%nat)); [| done].
        split; [done | by eexists].
      * intros Hseg. replace (k + S i)%nat with (S k + i)%nat by lia. by apply Hlook.
Qed.

(** X22: the first page renders for every value of the visibility flags:
    none of its segments refers to an unknown letter.  The path has one
    child per segment; the child of a segment whose flag is true is the
    group drawn for the segment, every other child is [null]. *)
Theorem horizontal_page_renders (visible : list bool) :
  exists children,
    Horizontal.render_path visible = Ok children /\
    length children = length Horizontal.introA_20x40 /\
    forall i seg, Horizontal.introA_20x40 !! i = Some seg ->
      exists c, children !! i = Some c /\
        if default false (visible !! i)
        then Horizontal.DrawSegment seg = Ok (default [] c) /\ is_Some c
        else c = None.
Proof.
  apply (horizontal_render_path_offset Horizontal.introA_20x40 visible 0).
  unfold Horizontal.introA_20x40. repeat (apply Forall_cons_2; [by eexists |]).
  apply Forall_nil_2.
Qed.

(** X23: in the first page the circle of a circle segment is centered on its
    letter and has radius [H / 4] = 50; it lies inside the drawing only for
    the letters D, X and G, so the circles at B and E of that page are cut by
    the edge of the drawing. *)
Theorem horizontal_circle_placement (at_ : string) (c : Point) :
  Horizontal.letterCoords !! at_ = Some c ->
  Horizontal.CircleAt at_ = Some (Horizontal.el_circle (Some (x c)) (Some (y c)) 50) /\
  inside_horizontal_viewBox (x c) (y c) 50
  = bool_decide (at_ ∈ ["D"; "X"; "G"]).
Proof.
  intros Hc. pose proof Hc as Hc'. unfold Horizontal.CircleAt. rewrite Hc'.
  apply letterCoords_lookup_entries in Hc. unfold Horizontal.letterCoords_entries in Hc.
  repeat (apply elem_of_cons in Hc as [Hc | Hc]; [injection Hc as -> -> |]);
    [.. | by apply elem_of_nil in Hc]; split; reflexivity.
Qed.

Lemma horizontal_circle_placement_witness :
  inside_horizontal_viewBox 200 2 50 = bool_decide ("B" ∈ ["D"; "X"; "G"]).
Proof.
  apply (horizontal_circle_placement "B" (mkPoint 200 2)). reflexivity.
Defined.

(** * The seeded content *)

Lemma segments_TESTS (k : string) :
  segments (activeTest TESTS k) = introA_segments \/ segments (activeTest TESTS k) = [].
Proof.
  unfold activeTest, tests_property, TESTS, js_property. cbn [store_get].
  destruct (decide ("introA" = k)); [by left |].
  case_bool_decide; [by right | by left].
Qed.

(** X24: every marker named by a segment of the seeded test is in the
    geometry table, and so is every letter of [LETTERS]; hence the seeded
    page renders in every state, whatever id is selected and whatever steps
    are hidden. *)
Theorem seeded_page_always_renders (st : PageState) :
  Forall (fun seg =>
            match seg with
            | LineSeg wps _ _ => Forall (fun i => is_Some (geom !! i)) wps
            | CircleSeg at_ _ _ _ => is_Some (geom !! at_)
            end) introA_segments /\
  Forall (fun i => is_Some (geom !! i)) LETTERS /\
  exists v, Page TESTS st = Ok v.
Proof.
  split; [| split].
  - unfold introA_segments. repeat (apply Forall_cons_2; [cbn; repeat constructor; by eexists |]).
    apply Forall_nil_2.
  - unfold LETTERS. repeat (apply Forall_cons_2; [by eexists |]). apply Forall_nil_2.
  - destruct (Page TESTS st) as [v | m] eqn:Hpage; [by exists v |]. exfalso.
    unfold Page in Hpage.
    destruct render_letters_ok as (ls & Hls & _). rewrite Hls in Hpage.
    cbn [mbind result_bind] in Hpage.
    destruct (render_path (hiddenSteps st) (segments (activeTest TESTS (activeTestId st))))
      as [cs | m'] eqn:Hpath; [done |].
    apply render_path_throw_inv in Hpath as (seg & Hseg & _ & Hdraw).
    destruct (segments_TESTS (activeTestId st)) as [Hsegs | Hsegs]; rewrite Hsegs in Hseg;
      [| by apply elem_of_nil in Hseg].
    unfold introA_segments in Hseg.
    repeat (apply elem_of_cons in Hseg as [-> | Hseg]; [vm_compute in Hdraw; discriminate |]).
    by apply elem_of_nil in Hseg.
Qed.
